(** * SrtFileTool: the SRT batch-translation pipeline of [SRCaddChinese.py]

    A shallow embedding of the line walkers of [SubtitleEditor]
    ([process_subtitle_lines], [onTranslationFinished]), of the background
    worker [TranslatorThread] ([test_proxy], [translate_text], [run]), of
    the paths [saveFile] and [saveChineseOnly] write, and of the window's
    flags with the slots of the worker's signals ([addTranslation],
    [showProgress], [updateProgress], [onTranslationFinished],
    [onTranslationError], [cancelTranslation]); then the properties the
    specification states about them, and further properties of the code. *)

From Stdlib Require Import ZArith NArith QArith List Floats Uint63 Decimal DecimalNat Lia.
From stdpp Require Import base list gmap strings.

Set Default Proof Using "Type".
Open Scope nat_scope.

(** ** Python values *)

Module Py.

(** A Python [str] is a sequence of Unicode code points. *)
Definition str : Type := list N.

(** The two tables of the Unicode character database that [str.strip] and
    [str.isdigit] consult.  They belong to the Python runtime, not to the
    repository, so the development is parametric in them. *)
Class UnicodeTables := {
  Py_UNICODE_ISSPACE : N -> bool;
  Py_UNICODE_ISDIGIT : N -> bool
}.

(** A concrete table that agrees with CPython on U+0000..U+007F (white space
    additionally on the whole code space); used for the worked examples. *)
Definition basic_isspace (c : N) : bool :=
  ((9 <=? c) && (c <=? 13) || (28 <=? c) && (c <=? 32)
   || (c =? 133) || (c =? 160) || (c =? 5760)
   || (8192 <=? c) && (c <=? 8202) || (c =? 8232) || (c =? 8233)
   || (c =? 8239) || (c =? 8287) || (c =? 12288))%N.

Definition basic_isdigit (c : N) : bool := ((48 <=? c) && (c <=? 57))%N.

Definition basic_tables : UnicodeTables :=
  {| Py_UNICODE_ISSPACE := basic_isspace; Py_UNICODE_ISDIGIT := basic_isdigit |}.

(** Decoding of UTF-8, so that literals can be written as Rocq strings. *)
Fixpoint decode_utf8 (bs : list N) : str :=
  match bs with
  | [] => []
  | b0 :: t0 =>
      if (b0 <? 128)%N then b0 :: decode_utf8 t0
      else
        match t0 with
        | [] => []
        | b1 :: t1 =>
            if (b0 <? 224)%N then ((b0 mod 32) * 64 + b1 mod 64)%N :: decode_utf8 t1
            else
              match t1 with
              | [] => []
              | b2 :: t2 =>
                  if (b0 <? 240)%N
                  then ((b0 mod 16) * 4096 + (b1 mod 64) * 64 + b2 mod 64)%N
                         :: decode_utf8 t2
                  else
                    match t2 with
                    | [] => []
                    | b3 :: t3 =>
                        ((b0 mod 8) * 262144 + (b1 mod 64) * 4096
                         + (b2 mod 64) * 64 + b3 mod 64)%N :: decode_utf8 t3
                    end
              end
        end
  end.

Definition py (s : string) : str :=
  decode_utf8 (map Ascii.N_of_ascii (String.list_ascii_of_string s)).
#[global] Arguments py : simpl never.

(** [str(n)] for a non-negative [int]: the canonical decimal numeral. *)
Fixpoint str_of_uint (d : Decimal.uint) : str :=
  match d with
  | Nil => []
  | D0 d => 48%N :: str_of_uint d
  | D1 d => 49%N :: str_of_uint d
  | D2 d => 50%N :: str_of_uint d
  | D3 d => 51%N :: str_of_uint d
  | D4 d => 52%N :: str_of_uint d
  | D5 d => 53%N :: str_of_uint d
  | D6 d => 54%N :: str_of_uint d
  | D7 d => 55%N :: str_of_uint d
  | D8 d => 56%N :: str_of_uint d
  | D9 d => 57%N :: str_of_uint d
  end.

Definition str_of_int (n : nat) : str := str_of_uint (Nat.to_uint n).

Section Strings.
Context {U : UnicodeTables}.

(** [s.lstrip()], [s.rstrip()] and [s.strip()] with no argument. *)
Fixpoint lstrip (s : str) : str :=
  match s with
  | [] => []
  | c :: s' => if Py_UNICODE_ISSPACE c then lstrip s' else s
  end.

Definition rstrip (s : str) : str := rev (lstrip (rev s)).

Definition strip (s : str) : str := rstrip (lstrip s).

(** [s.isdigit()]: at least one character, and all of them digits. *)
Definition isdigit (s : str) : bool :=
  match s with
  | [] => false
  | _ :: _ => forallb Py_UNICODE_ISDIGIT s
  end.

(** Truth value of a [str]: non-empty. *)
Definition truthy (s : str) : bool :=
  match s with [] => false | _ :: _ => true end.

End Strings.

(** [content.split('\n')] and ['\n'.join(lines)]. *)
Fixpoint split_nl (s : str) : list str :=
  match s with
  | [] => [[]]
  | c :: s' =>
      if (c =? 10)%N then [] :: split_nl s'
      else
        match split_nl s' with
        | l :: ls => (c :: l) :: ls
        | [] => [[c]]
        end
  end.

Fixpoint join_nl (ls : list str) : str :=
  match ls with
  | [] => []
  | l :: ls' =>
      match ls' with
      | [] => l
      | _ :: _ => l ++ 10%N :: join_nl ls'
      end
  end.

(** Exceptions.  Every exception of the program is an [Exception]; the
    model keeps the text that [str(e)] returns, and tells [IndexError]
    apart because one claim is about it. *)
Inductive exn :=
| IndexError
| Exception (msg : str).

Definition str_of_exn (e : exn) : str :=
  match e with
  | IndexError => py "list index out of range"
  | Exception msg => msg
  end.

(** Outcome of a computation whose loops are run on fuel: a value, a raised
    exception, or fuel exhausted (shown below never to happen). *)
Inductive outcome (A : Type) :=
| Done (a : A)
| Raise (e : exn)
| OutOfFuel.
Arguments Done {A} a.
Arguments Raise {A} e.
Arguments OutOfFuel {A}.

#[global] Instance outcome_ret : MRet outcome := fun A a => Done a.
#[global] Instance outcome_bind : MBind outcome := fun A B f m =>
  match m with
  | Done a => f a
  | Raise e => Raise e
  | OutOfFuel => OutOfFuel
  end.

(** [l[i]] for [i >= 0]. *)
Definition getitem {A} (l : list A) (i : nat) : outcome A :=
  match l !! i with
  | Some a => Done a
  | None => Raise IndexError
  end.

(** [while cond: body], run on [fuel] iterations at most. *)
Fixpoint while {S} (fuel : nat) (cond : S -> bool) (body : S -> outcome S)
    (s : S) : outcome S :=
  if cond s then
    match fuel with
    | 0 => OutOfFuel
    | Datatypes.S fuel' => s' ← body s; while fuel' cond body s'
    end
  else Done s.

End Py.
Import Py.

(** ** The line walkers of [SubtitleEditor] *)

Module SubtitleEditor.

Section Walkers.
Context {U : UnicodeTables}.

(** The [process_type] argument: ['translate'], or anything else (the
    [else] branch, documented as ['chinese_only']). *)
Inductive process_type := translate | chinese_only.

(** Local variables of [process_subtitle_lines]. *)
Record psl_state := PslState {
  psl_i : nat;
  psl_result : list str;
  psl_subtitle_count : nat
}.

Definition psl_body (lines : list str) (pt : process_type) (st : psl_state)
    : outcome psl_state :=
  let '(PslState i result subtitle_count) := st in
  l ← getitem lines i;
  let line := strip l in
  st1 ←
    (if isdigit line then
       match pt with
       | translate =>
           let i := i + 2 in
           if bool_decide (i < length lines) then
             t ← getitem lines i;
             mret (PslState i (result ++ [strip t]) subtitle_count)
           else mret (PslState i result subtitle_count)
       | chinese_only =>
           let result := result ++ [str_of_int subtitle_count] in
           let i := i + 1 in
           if bool_decide (i < length lines) then
             tm ← getitem lines i;
             let result := result ++ [tm] in
             let i := i + 2 in
             if bool_decide (i < length lines) then
               c ← getitem lines i;
               if negb (isdigit (strip c)) then
                 mret (PslState i (result ++ [c]) (subtitle_count + 1))
               else mret (PslState i result subtitle_count)
             else mret (PslState i result subtitle_count)
           else mret (PslState i result subtitle_count)
       end
     else mret (PslState i result subtitle_count));
  mret (PslState (psl_i st1 + 1) (psl_result st1) (psl_subtitle_count st1)).

Definition process_subtitle_lines (lines : list str) (pt : process_type)
    : outcome (list str) :=
  st ← while (length lines) (fun st => bool_decide (psl_i st < length lines))
         (psl_body lines pt) (PslState 0 [] 1);
  mret (psl_result st).

(** Local variables of the merge loop of [onTranslationFinished]. *)
Record otf_state := OtfState {
  otf_i : nat;
  otf_new_lines : list str;
  otf_trans_index : nat
}.

Definition otf_body (lines translated_texts : list str) (st : otf_state)
    : outcome otf_state :=
  let '(OtfState i new_lines trans_index) := st in
  l ← getitem lines i;
  let line := strip l in
  let new_lines := new_lines ++ [l] in
  st1 ←
    (if isdigit line then
       let i := i + 2 in
       tm ← getitem lines (i - 1);
       let new_lines := new_lines ++ [tm] in
       if bool_decide (i < length lines) then
         e ← getitem lines i;
         let new_lines := new_lines ++ [e] in
         if bool_decide (trans_index < length translated_texts) then
           t ← getitem translated_texts trans_index;
           mret (OtfState i (new_lines ++ [t]) (trans_index + 1))
         else mret (OtfState i new_lines trans_index)
       else mret (OtfState i new_lines trans_index)
     else mret (OtfState i new_lines trans_index));
  mret (OtfState (otf_i st1 + 1) (otf_new_lines st1) (otf_trans_index st1)).

(** The loop of [onTranslationFinished] over the lines of the editor's
    text; the final state holds [new_lines] and [trans_index]. *)
Definition merge_loop (lines translated_texts : list str) : outcome otf_state :=
  while (length lines) (fun st => bool_decide (otf_i st < length lines))
    (otf_body lines translated_texts) (OtfState 0 [] 0).

(** The [new_lines] the loop ends with. *)
Definition merge_lines (lines translated_texts : list str) : outcome (list str) :=
  st ← merge_loop lines translated_texts;
  mret (otf_new_lines st).

(** [onTranslationFinished] from the editor's text to the text it sets. *)
Definition onTranslationFinished (content : str) (translated_texts : list str)
    : outcome str :=
  new_lines ← merge_lines (split_nl content) translated_texts;
  mret (join_nl new_lines).

(** The text [saveChineseOnly] writes for the editor's text. *)
Definition saveChineseOnly (content : str) : outcome str :=
  chinese_lines ← process_subtitle_lines (split_nl content) chinese_only;
  mret (join_nl chinese_lines).

(** The path from the editor's text and the translations to the
    translated-only file: [onTranslationFinished] joins the merged lines
    into the text it gives to the text edit, and [saveChineseOnly] splits
    that text again before its walk and joins what the walk returns. *)
Definition chinese_only_of_merge (content : str) (translated_texts : list str)
    : outcome str :=
  new_text ← onTranslationFinished content translated_texts;
  saveChineseOnly new_text.

End Walkers.

End SubtitleEditor.
Import SubtitleEditor.

(** ** The background worker [TranslatorThread]

    The worker talks to the outside world: the process environment, the
    network, the clock and the signals of the thread.  The model threads a
    [state] through the code and records every such action, in order. *)

Module TranslatorThread.

(** The four [pyqtSignal]s of the class. *)
Inductive signal :=
| finished (translated_texts : list str)
| error (msg : str)
| progress (value : Z)
| translation_started.

Inductive action :=
| SetEnv (key value : string)   (* os.environ[key] = value *)
| DelEnv (key : string)         (* del os.environ[key] *)
| HttpGet (url : string)        (* requests.get(url, timeout=5) *)
| Translate (text : str)        (* self.translator.translate(text, dest='zh-cn') *)
| Sleep (seconds : Q)           (* time.sleep(seconds) *)
| Emit (s : signal).            (* self.<signal>.emit(...) *)

(** What the outside world answers: the probe request returns a response
    with a status code or raises; a call of the provider returns a result
    with a [text] or raises. *)
Inductive http_reply :=
| Status (status_code : Z)
| HttpFails (e : exn).

Inductive provider_reply :=
| Translated (text : str)
| ProviderFails (e : exn).

Record network := Network {
  probe : http_reply;
  (** the reply to the call number [n] (from 0) of the provider *)
  provider : nat -> str -> provider_reply
}.

Record state := State {
  environ : gmap string string;   (* os.environ *)
  translator : bool;              (* self.translator is not None *)
  calls : nat;                    (* calls of the provider so far *)
  trace : list action             (* actions so far, oldest first *)
}.

Inductive result (A : Type) :=
| Ok (a : A)
| Raised (e : exn).
Arguments Ok {A} a.
Arguments Raised {A} e.

Definition M (A : Type) : Type := state -> result A * state.

Definition ret {A} (a : A) : M A := fun s => (Ok a, s).

Definition bind {A B} (m : M A) (k : A -> M B) : M B := fun s =>
  match m s with
  | (Ok a, s') => k a s'
  | (Raised e, s') => (Raised e, s')
  end.

Definition raise {A} (e : exn) : M A := fun s => (Raised e, s).

(** [try: m  except Exception as e: h e] *)
Definition try_except {A} (m : M A) (h : exn -> M A) : M A := fun s =>
  match m s with
  | (Ok a, s') => (Ok a, s')
  | (Raised e, s') => h e s'
  end.

(** [try: m  finally: f] *)
Definition try_finally {A} (m : M A) (f : M unit) : M A := fun s =>
  match m s with
  | (r, s') =>
      match f s' with
      | (Ok _, s'') => (r, s'')
      | (Raised e, s'') => (Raised e, s'')
      end
  end.

Declare Scope worker_scope.
Delimit Scope worker_scope with worker.
Notation "x <- m ;; k" := (bind m (fun x => k))
  (at level 100, m at next level, right associativity) : worker_scope.
Notation "m ;; k" := (bind m (fun _ => k))
  (at level 100, right associativity) : worker_scope.
Open Scope worker_scope.

Definition act (a : action) : M unit := fun s =>
  (Ok tt, State (environ s) (translator s) (calls s) (trace s ++ [a])).

Definition setenv (key value : string) : M unit := fun s =>
  (Ok tt, State (<[key := value]> (environ s)) (translator s) (calls s)
            (trace s ++ [SetEnv key value])).

(** [if key in os.environ: del os.environ[key]] *)
Definition delenv_if_present (key : string) : M unit := fun s =>
  if bool_decide (is_Some (environ s !! key)) then
    (Ok tt, State (delete key (environ s)) (translator s) (calls s)
              (trace s ++ [DelEnv key]))
  else (Ok tt, s).

Definition sleep (seconds : Q) : M unit := act (Sleep seconds).

Definition emit (sg : signal) : M unit := act (Emit sg).

(** [requests.get('http://translate.google.com', timeout=5)] *)
Definition requests_get (net : network) (url : string) : M Z := fun s =>
  let s' := State (environ s) (translator s) (calls s) (trace s ++ [HttpGet url]) in
  match probe net with
  | Status code => (Ok code, s')
  | HttpFails e => (Raised e, s')
  end.

(** [self.translator = Translator(service_urls=[...])] *)
Definition create_translator : M unit := fun s =>
  (Ok tt, State (environ s) true (calls s) (trace s)).

(** [self.translator.translate(text, dest='zh-cn').text]; with no
    translator the attribute lookup on [None] raises before any call. *)
Definition translator_translate (net : network) (text : str) : M str := fun s =>
  if translator s then
    let s' := State (environ s) (translator s) (calls s + 1) (trace s ++ [Translate text]) in
    match provider net (calls s) text with
    | Translated t => (Ok t, s')
    | ProviderFails e => (Raised e, s')
    end
  else (Raised (Exception (py "'NoneType' object has no attribute 'translate'")), s).

Definition test_proxy (net : network) : M bool :=
  try_except
    (setenv "http_proxy" "http://127.0.0.1:7890" ;;
     setenv "https_proxy" "http://127.0.0.1:7890" ;;
     status_code <- requests_get net "http://translate.google.com" ;;
     if (status_code =? 200)%Z then create_translator ;; ret true
     else ret false)
    (fun e => raise (Exception (py "代理连接测试失败: " ++ str_of_exn e))).

(** The loop [for _ in range(n)] of [translate_text] and the [raise]
    after it: an attempt that succeeds returns from the function, one
    that fails sleeps and goes on. *)
Fixpoint attempts (net : network) (n : nat) (text : str) : M str :=
  match n with
  | 0 => raise (Exception (py "翻译重试次数超过限制"))
  | S n' =>
      try_except (translator_translate net text)
        (fun _ => sleep 1 ;; attempts net n' text)
  end.

Definition translate_text (net : network) (text : str) : M str :=
  try_except (attempts net 3 text)
    (fun e => raise (Exception (py "翻译失败: " ++ str_of_exn e))).

(** [float(n)] for a list length (exact below 2^53). *)
Definition float_of_nat (n : nat) : float :=
  PrimFloat.of_uint63 (Uint63.of_Z (Z.of_nat n)).

(** [int(x)] for a float: truncation toward zero; infinities and NaN
    raise. *)
Definition int_of_float (x : float) : result Z :=
  match Prim2SF x with
  | S754_zero _ => Ok 0%Z
  | S754_finite sign m e =>
      let v := if (0 <=? e)%Z then (Z.pos m * 2 ^ e)%Z else (Z.pos m / 2 ^ (- e))%Z in
      Ok (if sign then (- v)%Z else v)
  | S754_infinity _ => Raised (Exception (py "cannot convert float infinity to integer"))
  | S754_nan => Raised (Exception (py "cannot convert float NaN to integer"))
  end.

(** [int((i + 1) / total * 100)] *)
Definition progress_value (i total : nat) : result Z :=
  if bool_decide (total = 0) then Raised (Exception (py "division by zero"))
  else
    int_of_float
      (PrimFloat.mul (PrimFloat.div (float_of_nat (i + 1)) (float_of_nat total))
         (float_of_nat 100)).

(** [j] failed attempts: a call and a wait of one second each. *)
Definition failed_attempts (text : str) (j : nat) : list action :=
  concat (replicate j [Translate text; Sleep 1]).

Section Run.
Context {U : UnicodeTables}.

(** The body of the loop of [run] for the item [text] at position [i]. *)
Definition run_item (net : network) (total i : nat) (text : str)
    (translated_texts : list str) : M (list str) :=
  translated_texts <-
    (if truthy (strip text) then
       translated <- translate_text net text ;;
       ret (translated_texts ++ [translated])
     else ret (translated_texts ++ [[]])) ;;
  p <- (fun s => (progress_value i total, s)) ;;
  emit (progress p) ;;
  sleep (1 # 2) ;;
  ret translated_texts.

(** [for i, text in enumerate(self.texts)], from position [i] on. *)
Fixpoint run_loop (net : network) (total i : nat) (texts : list str)
    (translated_texts : list str) : M (list str) :=
  match texts with
  | [] => ret translated_texts
  | text :: rest =>
      translated_texts <- run_item net total i text translated_texts ;;
      run_loop net total (i + 1) rest translated_texts
  end.

(** The loop as the specification words it, for items from position [i]
    on when [n] calls of the provider have been made: a blank item gives
    the empty string with no call; any other item is translated, with up
    to two failed attempts before the one that succeeds; after every item
    its progress is emitted and the worker waits half a second. *)
Inductive loop_actions (net : network) (total : nat)
    : nat -> nat -> list str -> list str -> list action -> Prop :=
| loop_done i n : loop_actions net total i n [] [] []
| loop_blank i n text texts p rs acts :
    truthy (strip text) = false ->
    progress_value i total = Ok p ->
    loop_actions net total (i + 1) n texts rs acts ->
    loop_actions net total i n (text :: texts) ([] :: rs)
      (Emit (progress p) :: Sleep (1 # 2) :: acts)
| loop_translated i n j t text texts p rs acts :
    truthy (strip text) = true ->
    j < 3 ->
    (forall k, k < j -> exists e, provider net (n + k) text = ProviderFails e) ->
    provider net (n + j) text = Translated t ->
    progress_value i total = Ok p ->
    loop_actions net total (i + 1) (n + j + 1) texts rs acts ->
    loop_actions net total i n (text :: texts) (t :: rs)
      (failed_attempts text j ++
       Translate text :: Emit (progress p) :: Sleep (1 # 2) :: acts).

(** What the loop over [texts] may do: call the provider with one of the
    texts that is not blank, wait, and emit a progress value. *)
Definition loop_action_ok (texts : list str) (a : action) : Prop :=
  match a with
  | Translate t => t ∈ texts /\ truthy (strip t) = true
  | Sleep _ => True
  | Emit (progress _) => True
  | _ => False
  end.

Definition clear_proxy : M unit :=
  delenv_if_present "http_proxy" ;; delenv_if_present "https_proxy".

Definition run (net : network) (texts : list str) : M unit :=
  try_finally
    (try_except
       (ok <- test_proxy net ;;
        if negb ok then ret tt
        else
          emit translation_started ;;
          translated_texts <- run_loop net (length texts) 0 texts [] ;;
          emit (finished translated_texts))
       (fun e => emit (error (str_of_exn e))))
    clear_proxy.

End Run.

(** The thread as [TranslatorThread(texts)] leaves it, in a process with
    the environment [env]. *)
Definition init (env : gmap string string) : state := State env false 0 [].

(** The effect of performed actions on the environment. *)
Definition replay_env (acts : list action) (env : gmap string string)
    : gmap string string :=
  foldl (fun env a =>
           match a with
           | SetEnv key value => <[key := value]> env
           | DelEnv key => delete key env
           | _ => env
           end) env acts.

(** [QThread.terminate()] stops the thread wherever it is, and no Python
    code of the thread runs afterwards ([finally] blocks included): of
    the actions of a run only the first [n] are performed. *)
Definition environ_if_terminated {A} (m : M A) (env : gmap string string) (n : nat)
    : gmap string string :=
  replay_env (take n (trace (m (init env)).2)) env.

(** The two proxy variables as [test_proxy] sets them. *)
Definition proxy_set : list action :=
  [SetEnv "http_proxy" "http://127.0.0.1:7890";
   SetEnv "https_proxy" "http://127.0.0.1:7890"].

Definition proxy_cleared : list action :=
  [DelEnv "http_proxy"; DelEnv "https_proxy"].

Definition is_env_action (a : action) : bool :=
  match a with
  | SetEnv _ _ | DelEnv _ => true
  | _ => false
  end.

Definition probe_url : string := "http://translate.google.com".

(** The environment once [test_proxy] has set the two variables. *)
Definition with_proxy (env : gmap string string) : gmap string string :=
  <["https_proxy" := "http://127.0.0.1:7890"]>
    (<["http_proxy" := "http://127.0.0.1:7890"]> env).

(** The environment without the two variables. *)
Definition without_proxy (env : gmap string string) : gmap string string :=
  delete "https_proxy" (delete "http_proxy" env).

(** The signal a run ends with when its loop ends with [r]. *)
Definition final_signal (r : result (list str)) : signal :=
  match r with
  | Ok translated_texts => finished translated_texts
  | Raised e => error (str_of_exn e)
  end.

(** Projections of a trace. *)
Definition signals (acts : list action) : list signal :=
  omap (fun a => match a with Emit sg => Some sg | _ => None end) acts.

Definition translate_calls (acts : list action) : list str :=
  omap (fun a => match a with Translate t => Some t | _ => None end) acts.

Definition sleeps (acts : list action) : list Q :=
  omap (fun a => match a with Sleep d => Some d | _ => None end) acts.

Definition progress_values (acts : list action) : list Z :=
  omap (fun a => match a with Emit (progress v) => Some v | _ => None end) acts.

(** The number of half-second waits. *)
Definition item_sleeps (acts : list action) : nat :=
  length (filter (fun d => Qeq_bool d (1 # 2) = true) (sleeps acts)).

(** [v <= 100 * (i + 1) / total <= v + 1] for the value [v] computed for
    every item of every list of up to [bound] items, with [v = 100] at
    the last item. *)
Definition progress_truncates (i total : nat) : bool :=
  match progress_value i total with
  | Ok v =>
      (v * Z.of_nat total <=? 100 * Z.of_nat (i + 1))%Z
      && (100 * Z.of_nat (i + 1) <=? (v + 1) * Z.of_nat total)%Z
      && (if bool_decide (i + 1 = total) then (v =? 100)%Z else true)
  | Raised _ => false
  end.

Definition progress_truncates_upto (bound : nat) : bool :=
  forallb (fun total => forallb (fun i => progress_truncates i total) (seq 0 total))
    (seq 1 bound).

(** The percentage rounded to the nearest integer, halves to even, as
    Python's [round] does on the exact quotient. *)
Definition rounded_percentage (i total : nat) : Z :=
  let num := (100 * Z.of_nat (i + 1))%Z in
  let den := Z.of_nat total in
  let q := (num / den)%Z in
  let r2 := (2 * (num mod den))%Z in
  if (r2 <? den)%Z then q
  else if (den <? r2)%Z then (q + 1)%Z
  else if Z.even q then q else (q + 1)%Z.

End TranslatorThread.

(** ** Documents as the walkers see them

    The walkers never build caption objects: they recognise a caption by a
    line that is digit-only once stripped, and address the time code and
    the first text line by fixed offsets.  A [caption] records one such
    group of lines: index line, time-code line, first text line, and the
    lines up to the next caption (further text lines, blank separators). *)

Record caption := Caption {
  c_index : str;
  c_time : str;
  c_text : str;
  c_tail : list str
}.

Definition caption_lines (c : caption) : list str :=
  c_index c :: c_time c :: c_text c :: c_tail c.

(** The lines of a file: lines before the first caption, then the captions. *)
Definition layout (preamble : list str) (caps : list caption) : list str :=
  preamble ++ flat_map caption_lines caps.

Section WellFormed.
Context {U : UnicodeTables}.

Definition digit_only (l : str) : bool := isdigit (strip l).

(** A caption is well formed when its index line is digit-only and no line
    of its tail is (such a line would start a caption of its own). *)
Definition wf_caption (c : caption) : Prop :=
  digit_only (c_index c) = true /\
  Forall (fun l => digit_only l = false) (c_tail c).

Definition wf_layout (preamble : list str) (caps : list caption) : Prop :=
  Forall (fun l => digit_only l = false) preamble /\ Forall wf_caption caps.

End WellFormed.

(** A caption with a translation inserted after its first text line. *)
Definition with_translation (c : caption) (t : str) : caption :=
  Caption (c_index c) (c_time c) (c_text c) (t :: c_tail c).

(** ** The operations as the specification words them

    Kept apart from the code's definitions above, to compare the two. *)

Module Spec.

Record CaptionBlock := Block {
  index : nat;
  timeRange : str;
  text : list str
}.

Definition SubtitleDocument : Type := list CaptionBlock.

(** Index line, time-range line, each text line, blank separator. *)
Definition block_lines (b : CaptionBlock) : list str :=
  str_of_int (index b) :: timeRange b :: text b ++ [[]].

Definition document_lines (doc : SubtitleDocument) : list str :=
  flat_map block_lines doc.

(** One entry per block, equal to the block's first text line. *)
Definition extractSourceTexts (doc : SubtitleDocument) : list str :=
  map (fun b => hd [] (text b)) doc.

(** For each block at position i, if [translations[i]] is non-empty it is
    appended after the block's existing text lines; otherwise the block is
    left unchanged. *)
Definition merge (doc : SubtitleDocument) (translations : list str)
    : SubtitleDocument :=
  zip_with (fun b t => if truthy t then Block (index b) (timeRange b) (text b ++ [t]) else b)
    doc translations.

(** For each block with a non-empty translation, a block renumbered from 1
    with the original time range and the translated text only. *)
Fixpoint filter_from (n : nat) (doc : SubtitleDocument) (translations : list str)
    : SubtitleDocument :=
  match doc, translations with
  | b :: doc', t :: translations' =>
      if truthy t then Block n (timeRange b) [t] :: filter_from (n + 1) doc' translations'
      else filter_from n doc' translations'
  | _, _ => []
  end.

Definition filterTranslatedOnly (doc : SubtitleDocument) (translations : list str)
    : SubtitleDocument :=
  filter_from 1 doc translations.

(** The lines of a translated-only document in the layout the
    ['chinese_only'] walk writes: number, time code, text, no separator. *)
Definition translated_only_lines (doc : SubtitleDocument) : list str :=
  flat_map (fun b => str_of_int (index b) :: timeRange b :: text b) doc.

(** Modelled from the spec: the class [SrtFile] of the source declares
    [parse] and [save] in its docstring and has no method at all, so the
    two operations below follow section 4.1 of the specification.

    [serialize]: index line, time-range line, each text line, blank
    separator, every line ended by a line break. *)
Definition serialize (doc : SubtitleDocument) : str :=
  flat_map (fun l => l ++ [10%N]) (document_lines doc).

(** A line that is purely digits, read as a decimal number. *)
Fixpoint uint_of_digits (s : str) : option Decimal.uint :=
  match s with
  | [] => Some Nil
  | c :: s' =>
      match uint_of_digits s' with
      | None => None
      | Some d =>
          if (c =? 48)%N then Some (D0 d) else
          if (c =? 49)%N then Some (D1 d) else
          if (c =? 50)%N then Some (D2 d) else
          if (c =? 51)%N then Some (D3 d) else
          if (c =? 52)%N then Some (D4 d) else
          if (c =? 53)%N then Some (D5 d) else
          if (c =? 54)%N then Some (D6 d) else
          if (c =? 55)%N then Some (D7 d) else
          if (c =? 56)%N then Some (D8 d) else
          if (c =? 57)%N then Some (D9 d) else None
      end
  end.

Definition int_of_digits (s : str) : option nat :=
  match s with
  | [] => None
  | _ :: _ => Nat.of_uint <$> uint_of_digits s
  end.

Section Parse.
Context {U : UnicodeTables}.

(** A blank line: nothing but white space. *)
Definition blank (l : str) : bool := negb (truthy (strip l)).

(** Where the walk over the lines stands: outside any group, after an
    index line, or inside a caption's text. *)
Inductive parser_state :=
| Outside
| AfterIndex (n : nat)
| InText (n : nat) (time : str) (lines : list str).

(** Modelled from the spec: [parse] walks the lines looking for a line
    that is purely digits; on finding one it takes the next line as the
    time range and the following lines, up to the next blank line or the
    next digit-only line, as the caption's text.  Lines outside a group
    are dropped, and so is an index line with no line after it. *)
Fixpoint parse_lines (st : parser_state) (lines : list str) : SubtitleDocument :=
  match lines with
  | [] =>
      match st with
      | InText n time txt => [Block n time txt]
      | _ => []
      end
  | l :: rest =>
      match st with
      | Outside =>
          match int_of_digits l with
          | Some n => parse_lines (AfterIndex n) rest
          | None => parse_lines Outside rest
          end
      | AfterIndex n => parse_lines (InText n l []) rest
      | InText n time txt =>
          if blank l then Block n time txt :: parse_lines Outside rest
          else
            match int_of_digits l with
            | Some n' => Block n time txt :: parse_lines (AfterIndex n') rest
            | None => parse_lines (InText n time (txt ++ [l])) rest
            end
      end
  end.

Definition parse (raw : str) : SubtitleDocument :=
  parse_lines Outside (split_nl raw).

(** The blocks [parse] can produce: no line break inside a line, and no
    text line that is blank or purely digits. *)
Definition text_line_ok (l : str) : Prop :=
  (10%N ∉ l) /\ blank l = false /\ int_of_digits l = None.

Definition block_ok (b : CaptionBlock) : Prop :=
  (10%N ∉ timeRange b) /\ Forall text_line_ok (text b).

(** The same for a caption still being read. *)
Definition state_ok (st : parser_state) : Prop :=
  match st with
  | InText _ time txt => (10%N ∉ time) /\ Forall text_line_ok txt
  | _ => True
  end.

End Parse.

End Spec.

(** ** Loop invariants of the walkers *)

Section Invariants.
Context {U : UnicodeTables}.

(** The digit-only lines among [ls]. *)
Definition index_lines (ls : list str) : list str :=
  filter (fun l => digit_only l = true) ls.

(** What an iteration of [process_subtitle_lines] keeps: at most one
    entry (['translate']) or three (['chinese_only']) per digit-only line
    walked over, and for ['translate'] only stripped lines of the input. *)
Definition psl_invariant (lines : list str) (pt : process_type) (st : psl_state) : Prop :=
  match pt with
  | translate =>
      length (psl_result st) <= length (index_lines (take (psl_i st) lines)) /\
      Forall (fun t => exists l, l ∈ lines /\ t = strip l) (psl_result st)
  | chinese_only =>
      length (psl_result st) <= 3 * length (index_lines (take (psl_i st) lines))
  end.

(** What an iteration of the merge loop keeps: the lines walked over are
    in [new_lines] in their order, so are the translations used, and
    there is nothing else. *)
Definition otf_invariant (lines ts : list str) (st : otf_state) : Prop :=
  take (otf_i st) lines `sublist_of` otf_new_lines st /\
  take (otf_trans_index st) ts `sublist_of` otf_new_lines st /\
  length (otf_new_lines st) =
    length (take (otf_i st) lines) + otf_trans_index st /\
  otf_trans_index st <= length ts.

End Invariants.

(** ** Saving: the paths written and the state of the window *)

Module Saving.

(** [s.rsplit('.', 1)]: the parts before and after the last dot, when
    there is one. *)
Fixpoint rsplit_dot (s : str) : option (str * str) :=
  match s with
  | [] => None
  | c :: s' =>
      match rsplit_dot s' with
      | Some (h, t) => Some (c :: h, t)
      | None => if (c =? 46)%N then Some ([], s') else None
      end
  end.

(** [s.rsplit('.', 1)[0]] *)
Definition rsplit_dot_0 (s : str) : str :=
  match rsplit_dot s with
  | Some (h, _) => h
  | None => s
  end.

(** The path [saveFile] writes. *)
Definition saveFile_path (file_path : str) : str :=
  rsplit_dot_0 file_path ++ py "_中文.srt".

(** The path [saveChineseOnly] writes. *)
Definition saveChineseOnly_path (file_path : str) : str :=
  rsplit_dot_0 file_path ++ py "_仅中文.srt".

End Saving.

(** ** The window: its flags and the slots of the worker's signals

    Of the window only what the Python code reads and writes itself is
    kept: the attributes [current_file], [is_translating],
    [progress_dialog] (created or not), [translator_thread] (present or
    not), the enabled flag of the four buttons, the text last given to the
    text edit, and the error messages shown.  What the widgets do on
    their own (the progress dialog closing itself, the text edit reading
    markup) is not modelled. *)

Module Window.

Record editor := Editor {
  current_file : option str;
  is_translating : bool;
  progress_dialog : bool;          (* self.progress_dialog is not None *)
  translator_thread : option (list str);   (* the texts of the thread, once created *)
  translate_btn : bool;
  select_file_btn : bool;
  save_btn : bool;
  save_chinese_btn : bool;
  text_edit : str;
  messages : list str              (* QMessageBox.critical(self, ..., msg) *)
}.

(** [__init__]: [initUI], then the three attributes. *)
Definition init : editor :=
  Editor None false false None false true false false [] [].

(** A slot runs to its end or stops at an exception; the attributes
    assigned before the exception stay assigned. *)
Definition slot : Type := editor -> editor * option exn.

Definition none_has_no (attr : string) : exn :=
  Exception (py "'NoneType' object has no attribute '" ++ py attr ++ py "'").

Definition with_buttons (b : bool) (e : editor) : editor :=
  Editor (current_file e) (is_translating e) (progress_dialog e) (translator_thread e)
    b b b b (text_edit e) (messages e).

Definition with_translating (b : bool) (e : editor) : editor :=
  Editor (current_file e) b (progress_dialog e) (translator_thread e)
    (translate_btn e) (select_file_btn e) (save_btn e) (save_chinese_btn e)
    (text_edit e) (messages e).

Definition with_text (t : str) (e : editor) : editor :=
  Editor (current_file e) (is_translating e) (progress_dialog e) (translator_thread e)
    (translate_btn e) (select_file_btn e) (save_btn e) (save_chinese_btn e)
    t (messages e).

Definition with_dialog (e : editor) : editor :=
  Editor (current_file e) (is_translating e) true (translator_thread e)
    (translate_btn e) (select_file_btn e) (save_btn e) (save_chinese_btn e)
    (text_edit e) (messages e).

Definition with_thread (texts : list str) (e : editor) : editor :=
  Editor (current_file e) (is_translating e) (progress_dialog e) (Some texts)
    (translate_btn e) (select_file_btn e) (save_btn e) (save_chinese_btn e)
    (text_edit e) (messages e).

Definition with_message (msg : str) (e : editor) : editor :=
  Editor (current_file e) (is_translating e) (progress_dialog e) (translator_thread e)
    (translate_btn e) (select_file_btn e) (save_btn e) (save_chinese_btn e)
    (text_edit e) (messages e ++ [msg]).

(** The end of [onTranslationFinished], [onTranslationError] and
    [cancelTranslation]: not translating, the four buttons enabled. *)
Definition restore (e : editor) : editor :=
  with_buttons true (with_translating false e).

Section Slots.
Context {U : UnicodeTables}.

(** [addTranslation]: the editor after it, and the texts of the thread
    it started, if it started one. *)
Definition addTranslation (e : editor) : outcome (editor * option (list str)) :=
  match current_file e with
  | None => mret (e, None)
  | Some fname =>
      if negb (truthy fname) || is_translating e then mret (e, None)
      else
        let e := with_buttons false (with_translating true e) in
        texts_to_translate ←
          process_subtitle_lines (split_nl (text_edit e)) translate;
        mret (with_thread texts_to_translate e, Some texts_to_translate)
  end.

(** [showProgress], the slot of [translation_started]. *)
Definition showProgress : slot := fun e => (with_dialog e, None).

(** [updateProgress], the slot of [progress]. *)
Definition updateProgress (value : Z) : slot := fun e =>
  if progress_dialog e then (e, None) else (e, Some (none_has_no "setValue")).

(** [onTranslationFinished], the slot of [finished]. *)
Definition onTranslationFinished (translated_texts : list str) : slot := fun e =>
  match SubtitleEditor.onTranslationFinished (text_edit e) translated_texts with
  | Done new_text =>
      let e := with_text new_text e in
      if progress_dialog e then (restore e, None)
      else (e, Some (none_has_no "hide"))
  | Raise ex => (e, Some ex)
  | OutOfFuel => (e, None)
  end.

(** [onTranslationError], the slot of [error]. *)
Definition onTranslationError (error_msg : str) : slot := fun e =>
  if progress_dialog e then (with_message error_msg (restore e), None)
  else (e, Some (none_has_no "hide")).

(** [cancelTranslation], the slot of the dialog's [canceled]. *)
Definition cancelTranslation (e : editor) : editor :=
  match translator_thread e with
  | Some _ => restore e
  | None => e
  end.

Definition slot_of (sg : TranslatorThread.signal) : slot :=
  match sg with
  | TranslatorThread.translation_started => showProgress
  | TranslatorThread.progress value => updateProgress value
  | TranslatorThread.finished translated_texts => onTranslationFinished translated_texts
  | TranslatorThread.error msg => onTranslationError msg
  end.

(** What the delivery of signals leaves: the window, or no window at all.
    No slot has a handler around its body, nothing else in the program
    catches what a slot raises, and [main] installs no [sys.excepthook];
    PyQt5 (from 5.5 on) then ends the process when an exception leaves a
    slot. *)
Inductive delivery : Type :=
  | Alive (e : editor)
  | Aborted (ex : exn).

(** The signals of the worker reach their slots in the order of their
    emission; a slot that raises ends the application, and the signals
    after it reach no slot. *)
Fixpoint deliver (sgs : list TranslatorThread.signal) (e : editor) : delivery :=
  match sgs with
  | [] => Alive e
  | sg :: sgs' =>
      match slot_of sg e with
      | (e', None) => deliver sgs' e'
      | (_, Some ex) => Aborted ex
      end
  end.

(** A click on the translate button and, when a thread is started, its
    whole run with the delivery of its signals (no click on cancel). *)
Definition session (net : TranslatorThread.network) (env : gmap string string)
    (e : editor) : outcome delivery :=
  started ← addTranslation e;
  match started.2 with
  | None => mret (Alive started.1)
  | Some texts =>
      mret (deliver
              (TranslatorThread.signals
                 (TranslatorThread.trace
                    (TranslatorThread.run net texts (TranslatorThread.init env)).2))
              started.1)
  end.

End Slots.

End Window.

(** ** Worked inputs *)

Definition L : list string -> list str := map py.

(** A two-line caption followed by a one-line caption. *)
Definition doc_two_captions : Spec.SubtitleDocument :=
  [Spec.Block 1 (py "00:00:01,000 --> 00:00:02,000") (L ["Hello"; "there"]);
   Spec.Block 2 (py "00:00:03,000 --> 00:00:04,000") (L ["World"])].

(** The blocks of the specification's renumbering example. *)
Definition doc_5_9_12 : Spec.SubtitleDocument :=
  [Spec.Block 5 (py "T1") (L ["A"]);
   Spec.Block 9 (py "T2") (L ["B"]);
   Spec.Block 12 (py "T3") (L ["C"])].

(** A reachable provider that fails twice, then answers "你好". *)
Definition net_flaky : TranslatorThread.network :=
  TranslatorThread.Network (TranslatorThread.Status 200)
    (fun n _ =>
       if bool_decide (n < 2)
       then TranslatorThread.ProviderFails (Exception (py "timed out"))
       else TranslatorThread.Translated (py "你好")).

(** A reachable provider that answers every text with itself. *)
Definition net_echo : TranslatorThread.network :=
  TranslatorThread.Network (TranslatorThread.Status 200)
    (fun _ text => TranslatorThread.Translated text).

(** A thread whose translator exists, before any call. *)
Definition ready : TranslatorThread.state :=
  TranslatorThread.State ∅ true 0 [].

(** A provider that cannot be reached: the probe request raises. *)
Definition net_down : TranslatorThread.network :=
  TranslatorThread.Network
    (TranslatorThread.HttpFails (Exception (py "connection refused")))
    (fun _ text => TranslatorThread.Translated text).

(** A provider whose front page answers with status 503. *)
Definition net_busy : TranslatorThread.network :=
  TranslatorThread.Network (TranslatorThread.Status 503)
    (fun _ text => TranslatorThread.Translated text).

(** The text of one caption, as a file holds it. *)
Definition content_one_caption : str :=
  join_nl (L ["1"; "00:00:01,000 --> 00:00:02,000"; "Hello"; ""; ""]).

Definition caps_one_caption : list caption :=
  [Caption (py "1") (py "00:00:01,000 --> 00:00:02,000") (py "Hello") (L [""; ""])].

(** A window just after that file was opened. *)
Definition window_one_caption : Window.editor :=
  Window.Editor (Some (py "film.srt")) false false None true true true true
    content_one_caption [].

(** The input of the specification's scenario. *)
Definition doc_scenario : Spec.SubtitleDocument :=
  [Spec.Block 1 (py "00:00:01,000 --> 00:00:02,000") (L ["Hello"]);
   Spec.Block 2 (py "00:00:03,000 --> 00:00:04,000") (L ["World"])].

Definition content_scenario : str :=
  join_nl (L ["1"; "00:00:01,000 --> 00:00:02,000"; "Hello"; "";
              "2"; "00:00:03,000 --> 00:00:04,000"; "World"; ""; ""]).

(** The lines the editor holds for a document: its text split at line
    breaks, which leaves one empty string after the last line break. *)
Definition editor_lines (doc : Spec.SubtitleDocument) : list str :=
  Spec.document_lines doc ++ [[]].

(** The captions of [doc_two_captions] as the walkers see them. *)
Definition caps_two_captions : list caption :=
  [Caption (py "1") (py "00:00:01,000 --> 00:00:02,000") (py "Hello") (L ["there"; ""]);
   Caption (py "2") (py "00:00:03,000 --> 00:00:04,000") (py "World") (L [""; ""])].

(** The captions of [doc_5_9_12] as the walkers see them. *)
Definition caps_5_9_12 : list caption :=
  [Caption (py "5") (py "T1") (py "A") (L [""]);
   Caption (py "9") (py "T2") (py "B") (L [""]);
   Caption (py "12") (py "T3") (py "C") (L [""; ""])].

(** One caption whose text line ends in a space, and one whose text and
    translation are the year 2023. *)
Definition doc_padded : Spec.SubtitleDocument :=
  [Spec.Block 1 (py "00:00:01,000 --> 00:00:02,000") (L ["Hello "])].

Definition caps_padded : list caption :=
  [Caption (py "1") (py "00:00:01,000 --> 00:00:02,000") (py "Hello ") (L [""; ""])].

Definition doc_year : Spec.SubtitleDocument :=
  [Spec.Block 1 (py "T1") (L ["2023"])].

(** Lines that end in a digit-only line which the walk takes as a text
    line, not as an index. *)
Definition lines_index_last : list str :=
  L ["1"; "00:00:01,000 --> 00:00:02,000"; "2"].

(** What the merge loop makes of the captions, translations being taken
    from position [k] on: each caption's three leading lines, the
    translation at its position when there is one, then its tail. *)
Fixpoint merged_from (ts : list str) (k : nat) (caps : list caption) : list str :=
  match caps with
  | [] => []
  | c :: caps' =>
      c_index c :: c_time c :: c_text c :: option_list (ts !! k)
        ++ c_tail c ++ merged_from ts (k + 1) caps'
  end.

(** What the ['chinese_only'] walk makes of captions whose fourth line is
    taken as the translation: a fresh number counted from [n], the time
    code, and that fourth line. *)
Fixpoint renumbered_from (n : nat) (caps : list caption) : list str :=
  match caps with
  | [] => []
  | c :: caps' =>
      str_of_int n :: c_time c :: hd [] (c_tail c) :: renumbered_from (n + 1) caps'
  end.

(** ** Proof helpers *)

(** The conditions of the two [while] loops. *)
Abbreviation otf_cond lines := (fun st => bool_decide (otf_i st < length lines)).

Abbreviation psl_cond lines := (fun st => bool_decide (psl_i st < length lines)).

(** Actions that leave the environment alone. *)
Abbreviation no_env_action acts :=
  (Forall (fun a => TranslatorThread.is_env_action a = false) acts).

(** Two final states are equal when their fields are: the index up to
    arithmetic, the accumulated lines up to associativity of [++]. *)
Ltac state_eq :=
  unfold mret, outcome_ret; f_equal; f_equal;
  first [lia | by rewrite <- ?app_assoc | done].

(** An iteration that ends in a state further on. *)
Ltac step_done := eexists; split; [reflexivity|simpl; lia].

Example py_literal : py "甲a" = [30002%N; 97%N].
Proof. reflexivity. Qed.

(** ** Lines and line breaks *)

Lemma split_nl_nonempty s : split_nl s <> [].
Proof.
  destruct s as [|c s]; [done|]. simpl.
  destruct (c =? 10)%N; [done|]. by destruct (split_nl s).
Qed.

Lemma split_nl_no_break s : Forall (fun l => 10%N ∉ l) (split_nl s).
Proof.
  induction s as [|c s IH]; simpl.
  - repeat constructor. by intros ?%elem_of_nil.
  - destruct (c =? 10)%N eqn:Hc.
    + constructor; [by intros ?%elem_of_nil|done].
    + destruct (split_nl s) as [|l ls] eqn:Hs; [by apply split_nl_nonempty in Hs|].
      inversion IH as [|? ? Hl Hls]; subst. constructor; [|done].
      intros [Heq|?]%elem_of_cons; [|done].
      subst c. by rewrite N.eqb_refl in Hc.
Qed.

Lemma split_nl_line l s :
  10%N ∉ l ->
  split_nl (l ++ 10%N :: s) = l :: split_nl s.
Proof.
  induction l as [|c l IH]; intros Hl; simpl; [done|].
  assert (c <> 10%N) as Hc by (intros ->; apply Hl; by left).
  rewrite (proj2 (N.eqb_neq c 10) Hc).
  rewrite IH; [done|]. intros ?. apply Hl. by right.
Qed.

Lemma split_nl_one_line l : 10%N ∉ l -> split_nl l = [l].
Proof.
  induction l as [|c l IH]; intros Hl; simpl; [done|].
  assert (c <> 10%N) as Hc by (intros ->; apply Hl; by left).
  rewrite (proj2 (N.eqb_neq c 10) Hc).
  rewrite IH; [done|]. intros ?. apply Hl. by right.
Qed.

(** ['\n'.join(ls).split('\n') == ls] for a list that is not empty and
    whose strings hold no line break. *)
Lemma split_join ls :
  ls <> [] -> Forall (fun l => 10%N ∉ l) ls -> split_nl (join_nl ls) = ls.
Proof.
  intros Hne Hall. induction Hall as [|l ls Hl Hls IH]; [done|].
  destruct ls as [|l' ls]; simpl.
  - by apply split_nl_one_line.
  - rewrite split_nl_line by done. f_equal. by apply IH.
Qed.

(** A list of strings checked to hold no digit-only string and no line
    break. *)
Lemma translations_checked {U : UnicodeTables} ts :
  forallb (fun t => negb (digit_only t) && forallb (fun c => negb (c =? 10)%N) t) ts = true ->
  Forall (fun t => digit_only t = false /\ 10%N ∉ t) ts.
Proof.
  intros Hall. apply Forall_forall. intros t Hin.
  rewrite forallb_forall in Hall.
  specialize (Hall t (proj1 (list_elem_of_In _ _) Hin)).
  apply andb_prop in Hall as [Hd Hb]. split; [by apply negb_true_iff in Hd|].
  intros Hbr. rewrite forallb_forall in Hb.
  specialize (Hb _ (proj1 (list_elem_of_In _ _) Hbr)).
  by rewrite N.eqb_refl in Hb.
Qed.

(** Inserting translations keeps what holds of every line and of every
    translation. *)
Lemma layout_with_translation_Forall (P : str -> Prop) preamble caps : forall ts,
  Forall P (layout preamble caps) -> Forall P ts ->
  Forall P (layout preamble (zip_with with_translation caps ts)).
Proof.
  unfold layout. intros ts [Hpre Hcaps]%Forall_app Hts.
  apply Forall_app. split; [done|]. clear Hpre. revert ts Hts.
  induction caps as [|c caps IH]; intros [|t ts] Hts; simpl; [constructor..|].
  simpl in Hcaps. inversion Hts as [|? ? Ht Hts']; subst.
  inversion Hcaps as [|? ? H1 Hc1]; subst.
  inversion Hc1 as [|? ? H2 Hc2]; subst.
  inversion Hc2 as [|? ? H3 Hc3]; subst.
  apply Forall_app in Hc3 as [Htail Hrest].
  repeat (constructor; [done|]).
  apply Forall_app. split; [done|]. by apply IH.
Qed.

(** ** Properties of the line walkers *)

Section WalkerFacts.
Context {U : UnicodeTables}.

Lemma while_unfold {S} fuel (cond : S -> bool) body s :
  while fuel cond body s =
  if cond s then
    match fuel with
    | 0 => OutOfFuel
    | Datatypes.S fuel' => s' ← body s; while fuel' cond body s'
    end
  else Done s.
Proof. by destruct fuel. Qed.

Lemma getitem_at {A} (lines before rest : list A) i j x :
  lines = before ++ rest -> i = length before + j -> rest !! j = Some x ->
  getitem lines i = Done x.
Proof.
  intros -> -> Hx. unfold getitem.
  by rewrite lookup_app_r, Nat.add_comm, Nat.add_sub, Hx by lia.
Qed.

Lemma getitem_Done {A} (l : list A) i x : l !! i = Some x -> getitem l i = Done x.
Proof. unfold getitem. by intros ->. Qed.

Lemma getitem_lt {A} (l : list A) i :
  i < length l -> exists x, l !! i = Some x /\ getitem l i = Done x.
Proof.
  intros Hi. destruct (lookup_lt_is_Some_2 l i Hi) as [x Hx].
  exists x. split; [done|by apply getitem_Done].
Qed.

(** *** The merge loop on a laid-out document *)

(** One iteration at a line that is not digit-only: the line is copied. *)
Lemma otf_body_plain lines ts i acc k l :
  lines !! i = Some l -> digit_only l = false ->
  otf_body lines ts (OtfState i acc k) = Done (OtfState (i + 1) (acc ++ [l]) k).
Proof.
  intros Hl Hd. unfold otf_body, digit_only in *.
  rewrite (getitem_Done _ _ _ Hl). simpl. by rewrite Hd.
Qed.

(** One iteration at a caption with its time code and first text line: the
    three lines are copied, and the next translation, when there is one
    left, is appended after them. *)
Lemma otf_body_caption lines ts i acc k idx tm txt :
  lines !! i = Some idx -> digit_only idx = true ->
  lines !! (i + 1) = Some tm -> lines !! (i + 2) = Some txt ->
  otf_body lines ts (OtfState i acc k) =
  Done (OtfState (i + 3) (acc ++ idx :: tm :: txt :: option_list (ts !! k))
          (if bool_decide (k < length ts) then k + 1 else k)).
Proof.
  intros Hi Hd Htm Htxt. unfold otf_body, digit_only in *.
  rewrite (getitem_Done _ _ _ Hi). simpl. rewrite Hd.
  replace (i + 2 - 1) with (i + 1) by lia.
  rewrite (getitem_Done _ _ _ Htm). simpl.
  rewrite bool_decide_true by (by apply lookup_lt_Some in Htxt).
  rewrite (getitem_Done _ _ _ Htxt). simpl.
  case_bool_decide as Hk.
  - destruct (lookup_lt_is_Some_2 ts k Hk) as [t Ht].
    rewrite (getitem_Done _ _ _ Ht), Ht. simpl. state_eq.
  - rewrite (lookup_ge_None_2 ts k) by lia. simpl. state_eq.
Qed.

(** One iteration at a digit-only line that is the last line: the time
    code [lines[i-1]] (after [i += 2]) is past the end. *)
Lemma otf_body_last lines ts i acc k d :
  lines !! i = Some d -> digit_only d = true -> lines !! (i + 1) = None ->
  otf_body lines ts (OtfState i acc k) = Raise IndexError.
Proof.
  intros Hi Hd Hnone. unfold otf_body, digit_only in *.
  rewrite (getitem_Done _ _ _ Hi). simpl. rewrite Hd.
  replace (i + 2 - 1) with (i + 1) by lia.
  unfold getitem. by rewrite Hnone.
Qed.

Lemma lookup_middle_plus {A} (before rest : list A) j :
  (before ++ rest) !! (length before + j) = rest !! j.
Proof. by rewrite lookup_app_r, Nat.add_comm, Nat.add_sub by lia. Qed.

(** Lines that are not digit-only are copied one by one. *)
Lemma otf_skip ts (nd : list str) : forall lines before after acc k fuel,
  Forall (fun l => digit_only l = false) nd ->
  lines = before ++ nd ++ after ->
  length nd + length after <= fuel ->
  while fuel (otf_cond lines) (otf_body lines ts) (OtfState (length before) acc k) =
  while (fuel - length nd) (otf_cond lines) (otf_body lines ts)
    (OtfState (length before + length nd) (acc ++ nd) k).
Proof.
  induction nd as [|l nd IH]; intros lines before after acc k fuel Hnd Hl Hf.
  - simpl. by rewrite Nat.sub_0_r, Nat.add_0_r, app_nil_r.
  - inversion Hnd as [|? ? Hd Hnd']; subst.
    destruct fuel as [|fuel]; [simpl in Hf; lia|].
    rewrite while_unfold. simpl otf_i.
    rewrite bool_decide_true by (rewrite !length_app; simpl; lia).
    rewrite (otf_body_plain _ _ _ _ _ l); [|by apply list_lookup_middle|done].
    simpl mbind.
    replace (length before + 1) with (length (before ++ [l]))
      by (rewrite length_app; simpl; lia).
    rewrite (IH (before ++ l :: nd ++ after) (before ++ [l]) after);
      [|done|by rewrite <- app_assoc|simpl in Hf; lia].
    replace (length (before ++ [l]) + length nd) with (length before + length (l :: nd))
      by (rewrite length_app; simpl; lia).
    by rewrite <- app_assoc.
Qed.

Lemma merged_from_ge ts caps : forall k k',
  length ts <= k -> length ts <= k' ->
  merged_from ts k caps = merged_from ts k' caps.
Proof.
  induction caps as [|c caps IH]; intros k k' Hk Hk'; [done|].
  simpl. rewrite !(lookup_ge_None_2 ts) by lia.
  by rewrite (IH (k + 1) (k' + 1)) by lia.
Qed.

(** The walk over well-formed captions, whatever follows them. *)
Lemma otf_captions ts caps : forall lines before after acc k fuel,
  Forall wf_caption caps ->
  lines = before ++ flat_map caption_lines caps ++ after ->
  length (flat_map caption_lines caps) + length after <= fuel ->
  k <= length ts ->
  exists fuel', length after <= fuel' /\
  while fuel (otf_cond lines) (otf_body lines ts) (OtfState (length before) acc k) =
  while fuel' (otf_cond lines) (otf_body lines ts)
    (OtfState (length before + length (flat_map caption_lines caps))
       (acc ++ merged_from ts k caps)
       (Nat.min (k + length caps) (length ts))).
Proof.
  induction caps as [|c caps IH]; intros lines before after acc k fuel Hwf Hl Hf Hk.
  - exists fuel. simpl in *. split; [done|].
    rewrite app_nil_r, Nat.add_0_r, Nat.add_0_r. by rewrite Nat.min_l by lia.
  - inversion Hwf as [|? ? [Hd Htail] Hwf']; subst.
    destruct c as [idx tm txt tail]. simpl in *.
    rewrite length_app in Hf.
    destruct fuel as [|fuel]; [lia|].
    rewrite while_unfold. simpl otf_i.
    rewrite bool_decide_true by (rewrite !length_app; simpl; rewrite !length_app; lia).
    rewrite (otf_body_caption _ _ _ _ _ idx tm txt);
      [|by apply list_lookup_middle|done
       |by rewrite lookup_middle_plus|by rewrite lookup_middle_plus].
    simpl mbind.
    set (rest := flat_map caption_lines caps) in *.
    set (lines := before ++ idx :: tm :: txt :: (tail ++ rest) ++ after).
    replace (length before + 3) with (length (before ++ [idx; tm; txt]))
      by (rewrite length_app; simpl; lia).
    rewrite (otf_skip ts tail lines (before ++ [idx; tm; txt]) (rest ++ after));
      [|done|by unfold lines; rewrite <- !app_assoc|rewrite length_app; lia].
    rewrite <- length_app.
    destruct (IH lines ((before ++ [idx; tm; txt]) ++ tail) after
                ((acc ++ idx :: tm :: txt :: option_list (ts !! k)) ++ tail)
                (if bool_decide (k < length ts) then k + 1 else k)
                (fuel - length tail)) as (fuel' & Hfuel' & ->);
      [done|by unfold lines; rewrite <- !app_assoc|lia|case_bool_decide; lia|].
    rewrite <- !app_assoc.
    exists fuel'. split; [done|]. f_equal. f_equal.
    + rewrite !length_app. simpl. lia.
    + simpl. case_bool_decide; [done|].
      by rewrite (merged_from_ge ts caps k (k + 1)) by lia.
    + case_bool_decide; lia.
Qed.

(** Merge on a laid-out document, for any number of translations. *)
Lemma merge_loop_layout preamble caps ts :
  wf_layout preamble caps ->
  merge_loop (layout preamble caps) ts =
  Done (OtfState (length (layout preamble caps))
          (preamble ++ merged_from ts 0 caps)
          (Nat.min (length caps) (length ts))).
Proof.
  intros [Hpre Hcaps]. unfold merge_loop, layout.
  rewrite (otf_skip ts preamble _ [] (flat_map caption_lines caps) [] 0);
    [|done|done|rewrite length_app; lia].
  change (length [] + length preamble) with (length preamble).
  change ([] ++ preamble) with preamble.
  destruct (otf_captions ts caps (preamble ++ flat_map caption_lines caps)
              preamble [] preamble 0
              (length (preamble ++ flat_map caption_lines caps) - length preamble))
    as (fuel' & _ & ->);
    [done|by rewrite app_nil_r|rewrite length_app; simpl; lia|lia|].
  rewrite while_unfold. simpl otf_i.
  rewrite bool_decide_false by (rewrite length_app; lia).
  by rewrite length_app.
Qed.

(** A digit-only line after the last caption is reached as a caption of
    its own, and its time code is looked up past the end. *)
Lemma merge_loop_trailing_index preamble caps d ts :
  wf_layout preamble caps -> digit_only d = true ->
  merge_loop (layout preamble caps ++ [d]) ts = Raise IndexError.
Proof.
  intros [Hpre Hcaps] Hd. unfold merge_loop, layout.
  rewrite <- app_assoc.
  rewrite (otf_skip ts preamble _ [] (flat_map caption_lines caps ++ [d]) [] 0);
    [|done|done|rewrite !length_app; simpl; lia].
  change (length [] + length preamble) with (length preamble).
  change ([] ++ preamble) with preamble.
  set (lines := preamble ++ flat_map caption_lines caps ++ [d]).
  destruct (otf_captions ts caps lines preamble [d] preamble 0
              (length lines - length preamble))
    as (fuel' & Hfuel' & ->);
    [done|done|unfold lines; rewrite !length_app; simpl; lia|lia|].
  simpl in Hfuel'. destruct fuel' as [|fuel']; [lia|].
  rewrite while_unfold. simpl otf_i.
  rewrite bool_decide_true by (unfold lines; rewrite !length_app; simpl; lia).
  rewrite (otf_body_last _ _ _ _ _ d); [done| |done|].
  - unfold lines. rewrite app_assoc, <- length_app. by apply list_lookup_middle.
  - apply lookup_ge_None_2. unfold lines. rewrite !length_app. simpl. lia.
Qed.

(** *** [process_subtitle_lines] on a laid-out document *)

Lemma psl_body_plain lines pt i acc n l :
  lines !! i = Some l -> digit_only l = false ->
  psl_body lines pt (PslState i acc n) = Done (PslState (i + 1) acc n).
Proof.
  intros Hl Hd. unfold psl_body, digit_only in *.
  rewrite (getitem_Done _ _ _ Hl). simpl. by rewrite Hd.
Qed.

(** ['translate'] at a caption: the stripped first text line is taken. *)
Lemma psl_body_translate lines i acc n idx txt :
  lines !! i = Some idx -> digit_only idx = true ->
  lines !! (i + 2) = Some txt ->
  psl_body lines translate (PslState i acc n) =
  Done (PslState (i + 3) (acc ++ [strip txt]) n).
Proof.
  intros Hi Hd Htxt. unfold psl_body, digit_only in *.
  rewrite (getitem_Done _ _ _ Hi). simpl. rewrite Hd.
  rewrite bool_decide_true by (by apply lookup_lt_Some in Htxt).
  rewrite (getitem_Done _ _ _ Htxt). simpl. state_eq.
Qed.

(** ['chinese_only'] at a caption whose fourth line is not digit-only: the
    current number, the time code and the fourth line are taken. *)
Lemma psl_body_chinese lines i acc n idx tm t :
  lines !! i = Some idx -> digit_only idx = true ->
  lines !! (i + 1) = Some tm ->
  lines !! (i + 3) = Some t -> digit_only t = false ->
  psl_body lines chinese_only (PslState i acc n) =
  Done (PslState (i + 4) (acc ++ [str_of_int n; tm; t]) (n + 1)).
Proof.
  intros Hi Hd Htm Ht Hdt. unfold psl_body, digit_only in *.
  rewrite (getitem_Done _ _ _ Hi). simpl. rewrite Hd.
  rewrite bool_decide_true by (by apply lookup_lt_Some in Htm).
  rewrite (getitem_Done _ _ _ Htm). simpl.
  replace (i + 1 + 2) with (i + 3) by lia.
  rewrite bool_decide_true by (by apply lookup_lt_Some in Ht).
  rewrite (getitem_Done _ _ _ Ht). simpl. rewrite Hdt. simpl. state_eq.
Qed.

Lemma psl_skip pt (nd : list str) : forall lines before after acc n fuel,
  Forall (fun l => digit_only l = false) nd ->
  lines = before ++ nd ++ after ->
  length nd + length after <= fuel ->
  while fuel (psl_cond lines) (psl_body lines pt) (PslState (length before) acc n) =
  while (fuel - length nd) (psl_cond lines) (psl_body lines pt)
    (PslState (length before + length nd) acc n).
Proof.
  induction nd as [|l nd IH]; intros lines before after acc n fuel Hnd Hl Hf.
  - simpl. by rewrite Nat.sub_0_r, Nat.add_0_r.
  - inversion Hnd as [|? ? Hd Hnd']; subst.
    destruct fuel as [|fuel]; [simpl in Hf; lia|].
    rewrite while_unfold. simpl psl_i.
    rewrite bool_decide_true by (rewrite !length_app; simpl; lia).
    rewrite (psl_body_plain _ _ _ _ _ l); [|by apply list_lookup_middle|done].
    simpl mbind.
    replace (length before + 1) with (length (before ++ [l]))
      by (rewrite length_app; simpl; lia).
    rewrite (IH (before ++ l :: nd ++ after) (before ++ [l]) after);
      [|done|by rewrite <- app_assoc|simpl in Hf; lia].
    by replace (length (before ++ [l]) + length nd) with (length before + length (l :: nd))
      by (rewrite length_app; simpl; lia).
Qed.

Lemma psl_captions_translate caps : forall lines before acc n fuel,
  Forall wf_caption caps ->
  lines = before ++ flat_map caption_lines caps ->
  length (flat_map caption_lines caps) <= fuel ->
  while fuel (psl_cond lines) (psl_body lines translate) (PslState (length before) acc n) =
  Done (PslState (length lines) (acc ++ map (fun c => strip (c_text c)) caps) n).
Proof.
  induction caps as [|c caps IH]; intros lines before acc n fuel Hwf Hl Hf.
  - simpl in Hl. rewrite app_nil_r in Hl. subst lines.
    rewrite while_unfold. simpl psl_i.
    rewrite bool_decide_false by lia. simpl. by rewrite app_nil_r.
  - inversion Hwf as [|? ? [Hd Htail] Hwf']; subst.
    destruct c as [idx tm txt tail]. simpl in *.
    rewrite length_app in Hf.
    destruct fuel as [|fuel]; [lia|].
    rewrite while_unfold. simpl psl_i.
    rewrite bool_decide_true by (rewrite !length_app; simpl; lia).
    rewrite (psl_body_translate _ _ _ _ idx txt);
      [|by apply list_lookup_middle|done|by rewrite lookup_middle_plus].
    simpl mbind.
    set (lines := before ++ idx :: tm :: txt :: tail ++ flat_map caption_lines caps).
    replace (length before + 3) with (length (before ++ [idx; tm; txt]))
      by (rewrite length_app; simpl; lia).
    rewrite (psl_skip translate tail lines (before ++ [idx; tm; txt])
               (flat_map caption_lines caps));
      [|done|by unfold lines; rewrite <- app_assoc|lia].
    rewrite <- length_app.
    rewrite (IH lines); [|done|by unfold lines; rewrite <- !app_assoc|lia].
    by rewrite <- app_assoc.
Qed.

Lemma psl_captions_chinese caps : forall lines before acc n fuel,
  Forall (fun c => wf_caption c /\ c_tail c <> []) caps ->
  lines = before ++ flat_map caption_lines caps ->
  length (flat_map caption_lines caps) <= fuel ->
  while fuel (psl_cond lines) (psl_body lines chinese_only)
    (PslState (length before) acc n) =
  Done (PslState (length lines) (acc ++ renumbered_from n caps) (n + length caps)).
Proof.
  induction caps as [|c caps IH]; intros lines before acc n fuel Hwf Hl Hf.
  - simpl in Hl. rewrite app_nil_r in Hl. subst lines.
    rewrite while_unfold. simpl psl_i.
    rewrite bool_decide_false by lia. simpl.
    by rewrite app_nil_r, Nat.add_0_r.
  - inversion Hwf as [|? ? [[Hd Htail] Hne] Hwf']; subst.
    destruct c as [idx tm txt [|t tail]]; [done|]. simpl in *.
    inversion Htail as [|? ? Hdt Htail']; subst.
    rewrite length_app in Hf.
    destruct fuel as [|fuel]; [lia|].
    rewrite while_unfold. simpl psl_i.
    rewrite bool_decide_true by (rewrite !length_app; simpl; lia).
    rewrite (psl_body_chinese _ _ _ _ idx tm t);
      [|by apply list_lookup_middle|done|by rewrite lookup_middle_plus
       |by rewrite lookup_middle_plus|done].
    simpl mbind.
    set (lines := before ++ idx :: tm :: txt :: t :: tail ++ flat_map caption_lines caps).
    replace (length before + 4) with (length (before ++ [idx; tm; txt; t]))
      by (rewrite length_app; simpl; lia).
    rewrite (psl_skip chinese_only tail lines (before ++ [idx; tm; txt; t])
               (flat_map caption_lines caps));
      [|done|by unfold lines; rewrite <- app_assoc|lia].
    rewrite <- length_app.
    rewrite (IH lines); [|done|by unfold lines; rewrite <- !app_assoc|lia].
    f_equal. f_equal; [by rewrite <- app_assoc|lia].
Qed.

(** ['translate'] on a laid-out document. *)
Lemma process_translate_layout preamble caps :
  wf_layout preamble caps ->
  process_subtitle_lines (layout preamble caps) translate =
  Done (map (fun c => strip (c_text c)) caps).
Proof.
  intros [Hpre Hcaps]. unfold process_subtitle_lines, layout.
  rewrite (psl_skip translate preamble _ [] (flat_map caption_lines caps) [] 1);
    [|done|done|rewrite length_app; lia].
  change (length [] + length preamble) with (length preamble).
  by rewrite (psl_captions_translate caps _ preamble [] 1)
    by (done || rewrite length_app; lia).
Qed.

(** ['chinese_only'] on a laid-out document whose captions all have a
    fourth line. *)
Lemma process_chinese_layout preamble caps :
  Forall (fun l => digit_only l = false) preamble ->
  Forall (fun c => wf_caption c /\ c_tail c <> []) caps ->
  process_subtitle_lines (layout preamble caps) chinese_only =
  Done (renumbered_from 1 caps).
Proof.
  intros Hpre Hcaps. unfold process_subtitle_lines, layout.
  rewrite (psl_skip chinese_only preamble _ [] (flat_map caption_lines caps) [] 1);
    [|done|done|rewrite length_app; lia].
  change (length [] + length preamble) with (length preamble).
  by rewrite (psl_captions_chinese caps _ preamble [] 1)
    by (done || rewrite length_app; lia).
Qed.

(** With as many translations as captions, every caption receives the
    translation at its position. *)
Lemma merged_from_zip caps : forall ts0 ts,
  length ts = length caps ->
  merged_from (ts0 ++ ts) (length ts0) caps =
  flat_map caption_lines (zip_with with_translation caps ts).
Proof.
  induction caps as [|c caps IH]; intros ts0 [|t ts] Hlen; try done.
  simpl in *. rewrite list_lookup_middle by done. simpl.
  replace (length ts0 + 1) with (length (ts0 ++ [t])) by (rewrite length_app; simpl; lia).
  rewrite (cons_middle t ts0 ts), app_assoc.
  by rewrite IH by lia.
Qed.

Lemma merged_from_zip0 caps ts :
  length ts = length caps ->
  merged_from ts 0 caps = flat_map caption_lines (zip_with with_translation caps ts).
Proof. exact (merged_from_zip caps [] ts). Qed.

Lemma wf_with_translation caps : forall ts,
  Forall wf_caption caps ->
  Forall (fun t => digit_only t = false) ts ->
  Forall (fun c => wf_caption c /\ c_tail c <> []) (zip_with with_translation caps ts).
Proof.
  induction caps as [|c caps IH]; intros [|t ts] Hcaps Hts; simpl; try done.
  inversion Hcaps as [|? ? [Hd Htail] Hcaps']; inversion Hts; subst.
  constructor; [|by apply IH].
  split; [|done]. split; [done|]. simpl. by constructor.
Qed.

Lemma renumbered_from_zip caps : forall ts n,
  renumbered_from n (zip_with with_translation caps ts) =
  concat (imap (fun k ct => [str_of_int (n + k); c_time ct.1; ct.2]) (zip caps ts)).
Proof.
  induction caps as [|c caps IH]; intros [|t ts] n; simpl; try done.
  rewrite Nat.add_0_r. do 3 f_equal.
  rewrite IH. f_equal. apply imap_ext. intros k [c' t'] _. simpl.
  by replace (n + 1 + k) with (n + S k) by lia.
Qed.

(** *** The walkers on arbitrary lines *)

(** An iteration of [process_subtitle_lines] never fails and moves on. *)
Lemma psl_body_total lines pt st :
  psl_i st < length lines ->
  exists st', psl_body lines pt st = Done st' /\ psl_i st < psl_i st'.
Proof.
  destruct st as [i acc n]. simpl. intros Hi.
  destruct (getitem_lt lines i Hi) as (l & _ & Hl).
  unfold psl_body. rewrite Hl. simpl.
  destruct (isdigit (strip l)); [|step_done].
  destruct pt.
  - case_bool_decide as H2; [|step_done].
    destruct (getitem_lt lines _ H2) as (t & _ & ->). simpl.
    step_done.
  - case_bool_decide as H1; [|step_done].
    destruct (getitem_lt lines _ H1) as (tm & _ & ->). simpl.
    case_bool_decide as H3; [|step_done].
    destruct (getitem_lt lines _ H3) as (c & _ & ->). simpl.
    destruct (isdigit (strip c)); simpl; step_done.
Qed.

Lemma psl_while_total lines pt : forall fuel st,
  length lines <= fuel + psl_i st ->
  exists st', while fuel (psl_cond lines) (psl_body lines pt) st = Done st'.
Proof.
  induction fuel as [|fuel IH]; intros st Hf; rewrite while_unfold.
  - rewrite bool_decide_false by lia. by eexists.
  - case_bool_decide as Hi; [|by eexists].
    destruct (psl_body_total lines pt st Hi) as (st' & -> & Hlt). simpl.
    apply IH. lia.
Qed.

(** An iteration of the merge loop moves on, or fails at a digit-only
    last line. *)
Lemma otf_body_cases lines ts st :
  otf_i st < length lines ->
  (exists st', otf_body lines ts st = Done st' /\ otf_i st < otf_i st') \/
  (otf_body lines ts st = Raise IndexError /\
   exists d, lines !! otf_i st = Some d /\ digit_only d = true /\
             otf_i st + 1 = length lines).
Proof.
  destruct st as [i acc k]. simpl. intros Hi.
  destruct (getitem_lt lines i Hi) as (l & Hli & Hl).
  unfold otf_body. rewrite Hl. simpl.
  destruct (isdigit (strip l)) eqn:Hd; [|left; step_done].
  replace (i + 2 - 1) with (i + 1) by lia.
  destruct (decide (i + 1 < length lines)) as [H1|H1].
  - left. destruct (getitem_lt lines _ H1) as (tm & _ & ->). simpl.
    case_bool_decide as H2; [|step_done].
    destruct (getitem_lt lines _ H2) as (e & _ & ->). simpl.
    case_bool_decide as Hk; [|step_done].
    destruct (getitem_lt ts _ Hk) as (t & _ & ->). simpl.
    step_done.
  - right. assert (lines !! (i + 1) = None) as Hn by (apply lookup_ge_None_2; lia).
    unfold getitem. rewrite Hn.
    split; [done|]. exists l. repeat split; [done|done|lia].
Qed.

Lemma otf_while_cases lines ts : forall fuel st,
  length lines <= fuel + otf_i st ->
  (exists st', while fuel (otf_cond lines) (otf_body lines ts) st = Done st') \/
  (while fuel (otf_cond lines) (otf_body lines ts) st = Raise IndexError /\
   exists d, last lines = Some d /\ digit_only d = true).
Proof.
  induction fuel as [|fuel IH]; intros st Hf; rewrite while_unfold.
  - rewrite bool_decide_false by lia. left. by eexists.
  - case_bool_decide as Hi; [|left; by eexists].
    destruct (otf_body_cases lines ts st Hi)
      as [(st' & -> & Hlt)|(-> & d & Hd & Hdig & Hlast)]; simpl.
    + apply IH. lia.
    + right. split; [done|]. exists d. split; [|done].
      rewrite last_lookup. by replace (pred (length lines)) with (otf_i st) by lia.
Qed.

End WalkerFacts.

(** ** The specification's statements about the line walkers *)

Section WalkerClaims.
Context {U : UnicodeTables}.

(** C1, as the code has it: for every well-formed document and as many
    translations as captions, the merge inserts [translations[i]] as one
    more line directly after the first text line of caption i, whether the
    translation is empty or not (an empty one adds an empty line); all
    other lines are copied unchanged. *)
Theorem merge_inserts_every_translation preamble caps ts :
  wf_layout preamble caps ->
  length ts = length caps ->
  merge_lines (layout preamble caps) ts =
  Done (preamble ++
        flat_map (fun ct => c_index ct.1 :: c_time ct.1 :: c_text ct.1 :: ct.2 :: c_tail ct.1)
          (zip caps ts)).
Proof.
  intros Hwf Hlen. unfold merge_lines.
  rewrite (merge_loop_layout _ _ _ Hwf). simpl. do 2 f_equal.
  rewrite (merged_from_zip0 caps ts Hlen).
  clear Hwf. revert ts Hlen.
  induction caps as [|c caps IH]; intros [|t ts] Hlen; simpl in *; try done.
  by rewrite IH by lia.
Qed.

(** C4, as the code has it: for every text that is a well-formed
    document and as many translations as captions, none of them digit-only
    and none holding a line break, the translated-only file written after
    the merge holds one block per caption, the ones with an empty
    translation included: the number k+1 for the caption at position k,
    its time-code line, and its translation as the only text line.  No
    separator lines are written. *)
Theorem chinese_only_keeps_every_block content preamble caps ts :
  split_nl content = layout preamble caps ->
  wf_layout preamble caps ->
  length ts = length caps ->
  Forall (fun t => digit_only t = false /\ 10%N ∉ t) ts ->
  chinese_only_of_merge content ts =
  Done (join_nl
          (concat (imap (fun k ct => [str_of_int (k + 1); c_time ct.1; ct.2])
                     (zip caps ts)))).
Proof.
  intros Hsplit Hwf Hlen Hts.
  unfold chinese_only_of_merge, onTranslationFinished, merge_lines.
  rewrite Hsplit, (merge_loop_layout _ _ _ Hwf). simpl.
  rewrite (merged_from_zip0 caps ts Hlen).
  change (preamble ++ flat_map caption_lines (zip_with with_translation caps ts))
    with (layout preamble (zip_with with_translation caps ts)).
  unfold saveChineseOnly.
  rewrite split_join; cycle 1.
  - pose proof (split_nl_nonempty content) as Hne. rewrite Hsplit in Hne.
    unfold layout in *. destruct preamble as [|l preamble]; [|done].
    destruct caps as [|c caps]; [done|]. destruct ts as [|t ts]; done.
  - apply layout_with_translation_Forall.
    + rewrite <- Hsplit. apply split_nl_no_break.
    + eapply Forall_impl; [exact Hts|]. by intros t [_ ?].
  - destruct Hwf as [Hpre Hcaps].
    rewrite process_chinese_layout; cycle 1.
    + done.
    + apply wf_with_translation; [done|].
      eapply Forall_impl; [exact Hts|]. by intros t [? _].
    + simpl. rewrite renumbered_from_zip. do 3 f_equal.
      apply imap_ext. intros k [c t] _. simpl. by rewrite Nat.add_comm.
Qed.

(** C8, as the code has it: for every well-formed document with N
    captions, the extraction returns exactly N strings, one per caption in
    order, each equal to the caption's first text line with leading and
    trailing white space stripped; and the merge, given N translations,
    consumes exactly N of them, the one at position k going to the caption
    at position k. *)
Theorem extraction_and_merge_alignment preamble caps :
  wf_layout preamble caps ->
  process_subtitle_lines (layout preamble caps) translate =
    Done (map (fun c => strip (c_text c)) caps) /\
  length (map (fun c => strip (c_text c)) caps) = length caps /\
  forall ts, length ts = length caps ->
    exists st, merge_loop (layout preamble caps) ts = Done st /\
      otf_trans_index st = length caps /\
      otf_new_lines st = layout preamble (zip_with with_translation caps ts).
Proof.
  intros Hwf. split; [by apply process_translate_layout|].
  split; [by rewrite length_map|].
  intros ts Hlen. eexists. split; [by apply merge_loop_layout|]. simpl.
  split; [lia|]. unfold layout. by rewrite (merged_from_zip0 caps ts Hlen).
Qed.

(** C10, as the code has it: where every digit-only line is followed by
    at least one further line, every index of the merge loop is in bounds
    and the loop ends; the loop never needs more iterations than there
    are lines; the only failure is the [IndexError] of [lines[i-1]], and
    it needs a digit-only last line; and it does happen, on any well-formed
    document followed by one digit-only line (a single digit-only line is
    the smallest such input). *)
Theorem merge_index_bounds :
  (forall lines ts,
     (forall j d, lines !! j = Some d -> digit_only d = true -> j + 1 < length lines) ->
     exists st, merge_loop lines ts = Done st) /\
  (forall lines ts, merge_loop lines ts <> OutOfFuel) /\
  (forall lines ts e, merge_loop lines ts = Raise e ->
     e = IndexError /\ exists d, last lines = Some d /\ digit_only d = true) /\
  (forall preamble caps d ts,
     wf_layout preamble caps -> digit_only d = true ->
     merge_loop (layout preamble caps ++ [d]) ts = Raise IndexError).
Proof.
  split; [|split; [|split]].
  - intros lines ts Hsafe. unfold merge_loop.
    destruct (otf_while_cases lines ts (length lines) (OtfState 0 [] 0))
      as [?|[_ (d & Hlast & Hd)]]; [simpl; lia|done|].
    rewrite last_lookup in Hlast.
    specialize (Hsafe _ _ Hlast Hd).
    apply lookup_lt_Some in Hlast. lia.
  - intros lines ts. unfold merge_loop.
    destruct (otf_while_cases lines ts (length lines) (OtfState 0 [] 0))
      as [[st ->]|[-> _]]; [simpl; lia|done|done].
  - intros lines ts e. unfold merge_loop.
    destruct (otf_while_cases lines ts (length lines) (OtfState 0 [] 0))
      as [[st ->]|[-> Hd]]; [simpl; lia|done|].
    intros [= <-]. by split.
  - intros preamble caps d ts. apply merge_loop_trailing_index.
Qed.

End WalkerClaims.

(** *** Worked instances, on the basic tables *)

Section WalkerInstances.
#[local] Existing Instance basic_tables.

Lemma wf_two_captions : wf_layout [] caps_two_captions.
Proof. split; repeat constructor. Qed.

Lemma merge_inserts_every_translation_witness :
  wf_layout [] caps_two_captions /\
  length (L ["你好"; ""]) = length caps_two_captions /\
  merge_lines (layout [] caps_two_captions) (L ["你好"; ""]) =
  Done (L ["1"; "00:00:01,000 --> 00:00:02,000"; "Hello"; "你好"; "there"; "";
           "2"; "00:00:03,000 --> 00:00:04,000"; "World"; ""; ""; ""]).
Proof.
  split; [exact wf_two_captions|]. split; [reflexivity|].
  rewrite (merge_inserts_every_translation [] caps_two_captions (L ["你好"; ""])
             wf_two_captions eq_refl).
  vm_compute. reflexivity.
Defined.

(** C1 fails as stated: on [doc_two_captions] with translations
    ["你好"; ""], the code puts "你好" between the two text lines of the
    first caption and adds an empty line to the second, where the claim
    has "你好" after "there" and the second caption unchanged. *)
Lemma merge_differs_from_stated :
  editor_lines doc_two_captions = layout [] caps_two_captions /\
  merge_lines (editor_lines doc_two_captions) (L ["你好"; ""]) =
    Done (L ["1"; "00:00:01,000 --> 00:00:02,000"; "Hello"; "你好"; "there"; "";
             "2"; "00:00:03,000 --> 00:00:04,000"; "World"; ""; ""; ""]) /\
  editor_lines (Spec.merge doc_two_captions (L ["你好"; ""])) =
    L ["1"; "00:00:01,000 --> 00:00:02,000"; "Hello"; "there"; "你好"; "";
       "2"; "00:00:03,000 --> 00:00:04,000"; "World"; ""; ""] /\
  merge_lines (editor_lines doc_two_captions) (L ["你好"; ""]) <>
    Done (editor_lines (Spec.merge doc_two_captions (L ["你好"; ""]))).
Proof. vm_compute. repeat split; try reflexivity. discriminate. Qed.

Lemma wf_5_9_12 : wf_layout [] caps_5_9_12.
Proof. split; repeat constructor. Qed.

Lemma content_5_9_12_lines :
  split_nl (Spec.serialize doc_5_9_12) = layout [] caps_5_9_12.
Proof. vm_compute. reflexivity. Qed.

Lemma chinese_only_keeps_every_block_witness :
  split_nl (Spec.serialize doc_5_9_12) = layout [] caps_5_9_12 /\
  wf_layout [] caps_5_9_12 /\
  length (L ["甲"; ""; "丙"]) = length caps_5_9_12 /\
  Forall (fun t => digit_only t = false /\ 10%N ∉ t) (L ["甲"; ""; "丙"]) /\
  chinese_only_of_merge (Spec.serialize doc_5_9_12) (L ["甲"; ""; "丙"]) =
  Done (join_nl (L ["1"; "T1"; "甲"; "2"; "T2"; ""; "3"; "T3"; "丙"])).
Proof.
  assert (Forall (fun t => digit_only t = false /\ 10%N ∉ t) (L ["甲"; ""; "丙"])) as Hts
    by (apply translations_checked; vm_compute; reflexivity).
  split; [exact content_5_9_12_lines|].
  split; [exact wf_5_9_12|]. split; [reflexivity|]. split; [exact Hts|].
  rewrite (chinese_only_keeps_every_block (Spec.serialize doc_5_9_12) []
             caps_5_9_12 (L ["甲"; ""; "丙"])
             content_5_9_12_lines wf_5_9_12 eq_refl Hts).
  vm_compute. reflexivity.
Defined.

(** C4 fails as stated: on the specification's own example (indices 5, 9,
    12, translations "甲", "", "丙") the code writes three blocks numbered
    1, 2, 3, the second with an empty text line, where the claim has two
    blocks numbered 1, 2.  Besides, a translation that is digit-only
    ("2023") is not taken as text at all, and one that holds a line break
    is cut at it, its second line ("7") being taken for the index of a
    block of its own. *)
Lemma chinese_only_differs_from_stated :
  chinese_only_of_merge (Spec.serialize doc_5_9_12) (L ["甲"; ""; "丙"]) =
    Done (join_nl (L ["1"; "T1"; "甲"; "2"; "T2"; ""; "3"; "T3"; "丙"])) /\
  join_nl (Spec.translated_only_lines
             (Spec.filterTranslatedOnly doc_5_9_12 (L ["甲"; ""; "丙"]))) =
    join_nl (L ["1"; "T1"; "甲"; "2"; "T3"; "丙"]) /\
  chinese_only_of_merge (Spec.serialize doc_5_9_12) (L ["甲"; ""; "丙"]) <>
    Done (join_nl (Spec.translated_only_lines
                     (Spec.filterTranslatedOnly doc_5_9_12 (L ["甲"; ""; "丙"])))) /\
  chinese_only_of_merge (Spec.serialize doc_year) (L ["2023"]) =
    Done (join_nl (L ["1"; "T1"])) /\
  chinese_only_of_merge (Spec.serialize doc_year) [py "X" ++ 10%N :: py "7"] =
    Done (join_nl (L ["1"; "T1"; "X"; "2"; ""])).
Proof. vm_compute. repeat split; try reflexivity. discriminate. Qed.

Lemma wf_padded : wf_layout [] caps_padded.
Proof. split; repeat constructor. Qed.

Lemma extraction_and_merge_alignment_witness :
  wf_layout [] caps_padded /\
  process_subtitle_lines (layout [] caps_padded) translate = Done (L ["Hello"]) /\
  exists st, merge_loop (layout [] caps_padded) (L ["你好"]) = Done st /\
    otf_trans_index st = 1 /\
    otf_new_lines st =
      L ["1"; "00:00:01,000 --> 00:00:02,000"; "Hello "; "你好"; ""; ""].
Proof.
  split; [exact wf_padded|].
  destruct (extraction_and_merge_alignment [] caps_padded wf_padded)
    as (Hex & _ & Hmerge).
  split; [rewrite Hex; vm_compute; reflexivity|].
  destruct (Hmerge (L ["你好"]) eq_refl) as (st & Hst & Hk & Hlines).
  exists st. split; [exact Hst|].
  split; [rewrite Hk; reflexivity|rewrite Hlines; vm_compute; reflexivity].
Defined.

(** C8 fails as stated: the caption's first text line is "Hello " (with a
    trailing space), and the extraction returns "Hello". *)
Lemma extraction_strips_text_line :
  editor_lines doc_padded = layout [] caps_padded /\
  Spec.extractSourceTexts doc_padded = L ["Hello "] /\
  process_subtitle_lines (editor_lines doc_padded) translate = Done (L ["Hello"]) /\
  process_subtitle_lines (editor_lines doc_padded) translate <>
    Done (Spec.extractSourceTexts doc_padded).
Proof. vm_compute. repeat split; try reflexivity. discriminate. Qed.

(** C10 fails as stated for "any content whose final line is digit-only":
    here the final line "2" is digit-only, the walk takes it as the text
    line of caption 1, and the merge ends without an error. *)
Lemma merge_digit_last_line_in_bounds :
  last lines_index_last = Some (py "2") /\
  digit_only (py "2") = true /\
  merge_lines lines_index_last (L ["二"]) =
    Done (L ["1"; "00:00:01,000 --> 00:00:02,000"; "2"; "二"]).
Proof. vm_compute. repeat split; reflexivity. Qed.

End WalkerInstances.

(** ** Properties of the worker *)

Import TranslatorThread.

Section WorkerFacts.
Context {U : UnicodeTables}.

Lemma translate_calls_app a b :
  translate_calls (a ++ b) = translate_calls a ++ translate_calls b.
Proof. apply omap_app. Qed.

Lemma translate_calls_failed_attempts text j :
  translate_calls (failed_attempts text j) = replicate j text.
Proof.
  induction j as [|j IH]; [done|].
  change (failed_attempts text (S j))
    with ([Translate text; Sleep 1] ++ failed_attempts text j).
  unfold translate_calls in *. by rewrite omap_app, IH.
Qed.

Lemma attempts_all_fail net text env : forall n c acts,
  (forall i, i < n -> exists e, provider net (c + i) text = ProviderFails e) ->
  attempts net n text (State env true c acts) =
  (Raised (Exception (py "翻译重试次数超过限制")),
   State env true (c + n) (acts ++ failed_attempts text n)).
Proof.
  induction n as [|n IH]; intros c acts Hfail.
  - simpl. unfold raise, failed_attempts. simpl.
    by rewrite Nat.add_0_r, app_nil_r.
  - destruct (Hfail 0 ltac:(lia)) as [e He]. rewrite Nat.add_0_r in He.
    simpl. unfold try_except, translator_translate. simpl. rewrite He.
    unfold bind, sleep, act. simpl.
    rewrite IH.
    + unfold failed_attempts. simpl. rewrite <- !app_assoc. simpl.
      do 2 f_equal. lia.
    + intros i Hi. destruct (Hfail (S i) ltac:(lia)) as [e' He'].
      exists e'. by replace (c + 1 + i) with (c + S i) by lia.
Qed.

Lemma attempts_success net text env t : forall n j c acts,
  j < n ->
  (forall i, i < j -> exists e, provider net (c + i) text = ProviderFails e) ->
  provider net (c + j) text = Translated t ->
  attempts net n text (State env true c acts) =
  (Ok t, State env true (c + j + 1) (acts ++ failed_attempts text j ++ [Translate text])).
Proof.
  induction n as [|n IH]; intros j c acts Hj Hfail Hok; [lia|].
  simpl. unfold try_except, translator_translate. simpl.
  destruct j as [|j].
  - rewrite Nat.add_0_r in Hok. rewrite Hok. unfold failed_attempts. simpl.
    by rewrite Nat.add_0_r.
  - destruct (Hfail 0 ltac:(lia)) as [e He]. rewrite Nat.add_0_r in He.
    rewrite He. unfold bind, sleep, act. simpl.
    rewrite (IH j).
    + unfold failed_attempts. simpl. rewrite <- !app_assoc. simpl.
      do 2 f_equal. lia.
    + lia.
    + intros i Hi. destruct (Hfail (S i) ltac:(lia)) as [e' He'].
      exists e'. by replace (c + 1 + i) with (c + S i) by lia.
    + by replace (c + 1 + j) with (c + S j) by lia.
Qed.

(** C2: [translate_text] calls the provider at most 3 times; after each
    failed attempt it waits 1 second and tries again; it returns the
    provider's text at the first attempt that succeeds (after two failures
    and a success: three calls, two waits); after three failures it raises
    the translation error, whose cause is the exhausted retry limit.  The
    environment is left alone. *)
Theorem translate_text_retry net text s :
  translator s = true ->
  (forall j t, j < 3 ->
     (forall i, i < j -> exists e, provider net (calls s + i) text = ProviderFails e) ->
     provider net (calls s + j) text = Translated t ->
     translate_text net text s =
     (Ok t, State (environ s) true (calls s + j + 1)
              (trace s ++ failed_attempts text j ++ [Translate text]))) /\
  ((forall i, i < 3 -> exists e, provider net (calls s + i) text = ProviderFails e) ->
     translate_text net text s =
     (Raised (Exception (py "翻译失败: " ++ py "翻译重试次数超过限制")),
      State (environ s) true (calls s + 3) (trace s ++ failed_attempts text 3))) /\
  length (translate_calls (trace (translate_text net text s).2)) <=
    length (translate_calls (trace s)) + 3.
Proof.
  destruct s as [env tr c acts]. simpl. intros ->.
  assert (forall j t, j < 3 ->
     (forall i, i < j -> exists e, provider net (c + i) text = ProviderFails e) ->
     provider net (c + j) text = Translated t ->
     translate_text net text (State env true c acts) =
     (Ok t, State env true (c + j + 1)
              (acts ++ failed_attempts text j ++ [Translate text]))) as Hsucc.
  { intros j t Hj Hfail Hok. unfold translate_text, try_except.
    by rewrite (attempts_success net text env t 3 j c acts Hj Hfail Hok). }
  assert ((forall i, i < 3 -> exists e, provider net (c + i) text = ProviderFails e) ->
     translate_text net text (State env true c acts) =
     (Raised (Exception (py "翻译失败: " ++ py "翻译重试次数超过限制")),
      State env true (c + 3) (acts ++ failed_attempts text 3))) as Hfail3.
  { intros Hfail. unfold translate_text, try_except.
    by rewrite (attempts_all_fail net text env 3 c acts Hfail). }
  split; [exact Hsucc|]. split; [exact Hfail3|].
  assert (forall j,
            length (translate_calls (acts ++ failed_attempts text j)) =
            length (translate_calls acts) + j) as Hcount.
  { intros j.
    by rewrite translate_calls_app, translate_calls_failed_attempts,
      length_app, length_replicate. }
  assert (forall j,
            length (translate_calls (acts ++ failed_attempts text j ++ [Translate text])) =
            length (translate_calls acts) + j + 1) as Hcount1.
  { intros j.
    rewrite !translate_calls_app, translate_calls_failed_attempts,
      !length_app, length_replicate. simpl. lia. }
  destruct (provider net (c + 0) text) as [t0|e0] eqn:H0.
  { rewrite (Hsucc 0 t0); [|lia|intros; lia|done].
    cbn [snd trace]. rewrite Hcount1. lia. }
  destruct (provider net (c + 1) text) as [t1|e1] eqn:H1.
  { rewrite (Hsucc 1 t1); [|lia| |done].
    - cbn [snd trace]. rewrite Hcount1. lia.
    - intros i Hi. replace i with 0 by lia. by eexists. }
  destruct (provider net (c + 2) text) as [t2|e2] eqn:H2.
  { rewrite (Hsucc 2 t2); [|lia| |done].
    - cbn [snd trace]. rewrite Hcount1. lia.
    - intros i Hi. destruct i as [|[|i]]; [by eexists|by eexists|lia]. }
  rewrite Hfail3.
  - cbn [snd trace]. rewrite Hcount. lia.
  - intros i Hi. destruct i as [|[|[|i]]]; [by eexists..|lia].
Qed.

(** *** The loop of [run] *)

Lemma failed_attempts_no_env text j : no_env_action (failed_attempts text j).
Proof.
  induction j as [|j IH]; [by constructor|].
  change (failed_attempts text (S j))
    with ([Translate text; Sleep 1] ++ failed_attempts text j).
  apply Forall_app. split; [by repeat constructor|done].
Qed.

(** Every attempt pattern of [translate_text]: success at attempt [j] after
    [j] failures, or three failures. *)
Lemma translate_text_cases net text s :
  translator s = true ->
  (exists j t, j < 3 /\
     (forall i, i < j -> exists e, provider net (calls s + i) text = ProviderFails e) /\
     provider net (calls s + j) text = Translated t /\
     translate_text net text s =
     (Ok t, State (environ s) true (calls s + j + 1)
              (trace s ++ failed_attempts text j ++ [Translate text]))) \/
  (exists msg, translate_text net text s =
     (Raised (Exception msg),
      State (environ s) true (calls s + 3) (trace s ++ failed_attempts text 3))).
Proof.
  destruct s as [env tr c acts]. simpl. intros ->.
  unfold translate_text, try_except.
  destruct (provider net (c + 0) text) as [t0|e0] eqn:H0.
  { left. exists 0, t0. repeat split; [lia|intros; lia|done|].
    by rewrite (attempts_success net text env t0 3 0 c acts)
      by (done || lia || intros; lia). }
  destruct (provider net (c + 1) text) as [t1|e1] eqn:H1.
  { left. exists 1, t1.
    assert (forall i, i < 1 -> exists e, provider net (c + i) text = ProviderFails e)
      as Hf by (intros i Hi; replace i with 0 by lia; by eexists).
    repeat split; [lia|done|done|].
    by rewrite (attempts_success net text env t1 3 1 c acts) by (done || lia). }
  destruct (provider net (c + 2) text) as [t2|e2] eqn:H2.
  { left. exists 2, t2.
    assert (forall i, i < 2 -> exists e, provider net (c + i) text = ProviderFails e)
      as Hf by (intros i Hi; destruct i as [|[|i]]; [by eexists|by eexists|lia]).
    repeat split; [lia|done|done|].
    by rewrite (attempts_success net text env t2 3 2 c acts) by (done || lia). }
  right. eexists.
  rewrite (attempts_all_fail net text env 3 c acts); [done|].
  intros i Hi. destruct i as [|[|[|i]]]; [by eexists..|lia].
Qed.

(** One item of the loop. *)
Lemma run_item_spec net total i text acc s r s' :
  translator s = true ->
  run_item net total i text acc s = (r, s') ->
  environ s' = environ s /\ translator s' = true /\
  exists acts, trace s' = trace s ++ acts /\ no_env_action acts /\
    match r with
    | Ok rs =>
        exists p, progress_value i total = Ok p /\
          ((truthy (strip text) = false /\ rs = acc ++ [[]] /\
            acts = [Emit (progress p); Sleep (1 # 2)] /\ calls s' = calls s) \/
           (truthy (strip text) = true /\
            exists j t, j < 3 /\
              (forall k, k < j -> exists e, provider net (calls s + k) text = ProviderFails e) /\
              provider net (calls s + j) text = Translated t /\
              rs = acc ++ [t] /\
              acts = failed_attempts text j ++
                     [Translate text; Emit (progress p); Sleep (1 # 2)] /\
              calls s' = calls s + j + 1))
    | Raised _ => True
    end.
Proof.
  intros Htr. unfold run_item.
  destruct (truthy (strip text)) eqn:Hblank.
  - unfold bind at 1. unfold bind at 1.
    destruct (translate_text_cases net text s Htr)
      as [(j & t & Hj & Hfail & Hok & ->)|(msg & ->)].
    + unfold ret at 1. unfold bind, emit, sleep, act, ret. simpl.
      destruct (progress_value i total) as [p|e] eqn:Hp; simpl.
      * intros [= <- <-]. simpl. repeat split; try done.
        exists (failed_attempts text j ++ [Translate text; Emit (progress p); Sleep (1 # 2)]).
        split; [by rewrite <- !app_assoc|].
        split; [apply Forall_app; split;
                [apply failed_attempts_no_env|by repeat constructor]|].
        exists p. split; [done|]. right. split; [done|].
        exists j, t. by repeat split.
      * intros [= <- <-]. simpl. repeat split; try done.
        exists (failed_attempts text j ++ [Translate text]).
        split; [done|]. split; [|done].
        apply Forall_app; split; [apply failed_attempts_no_env|by repeat constructor].
    + intros [= <- <-]. simpl. repeat split; try done.
      exists (failed_attempts text 3). split; [done|].
      split; [apply failed_attempts_no_env|done].
  - unfold bind, emit, sleep, act, ret. simpl.
    destruct (progress_value i total) as [p|e] eqn:Hp; simpl.
    + intros [= <- <-]. simpl. repeat split; try done.
      exists [Emit (progress p); Sleep (1 # 2)].
      split; [by rewrite <- !app_assoc|]. split; [by repeat constructor|].
      exists p. split; [done|]. left. by repeat split.
    + intros [= <- <-]. simpl. repeat split; try done.
      exists []. split; [by rewrite app_nil_r|]. split; [by constructor|done].
Qed.

(** The whole loop: it leaves the environment alone, and when it returns,
    its actions are those of [loop_actions]. *)
Lemma run_loop_spec net total : forall texts i acc s r s',
  translator s = true ->
  run_loop net total i texts acc s = (r, s') ->
  environ s' = environ s /\ translator s' = true /\
  exists acts, trace s' = trace s ++ acts /\ no_env_action acts /\
    match r with
    | Ok rs => exists rs', rs = acc ++ rs' /\
                 loop_actions net total i (calls s) texts rs' acts
    | Raised _ => True
    end.
Proof.
  induction texts as [|text texts IH]; intros i acc s r s' Htr.
  - simpl. unfold ret. intros [= <- <-]. repeat split; try done.
    exists []. split; [by rewrite app_nil_r|]. split; [by constructor|].
    exists []. split; [by rewrite app_nil_r|constructor].
  - simpl. unfold bind at 1.
    destruct (run_item net total i text acc s) as [r1 s1] eqn:Hitem.
    destruct (run_item_spec _ _ _ _ _ _ _ _ Htr Hitem)
      as (Henv1 & Htr1 & acts1 & Htrace1 & Hne1 & Hr1).
    destruct r1 as [rs1|e1].
    + intros Hloop.
      destruct (IH _ _ _ _ _ Htr1 Hloop) as (Henv2 & Htr2 & acts2 & Htrace2 & Hne2 & Hr2).
      split; [congruence|]. split; [done|].
      exists (acts1 ++ acts2).
      split; [by rewrite Htrace2, Htrace1, <- app_assoc|].
      split; [by apply Forall_app|].
      destruct r as [rs|e]; [|done].
      destruct Hr2 as (rs2 & -> & Hla).
      destruct Hr1 as (p & Hp & [(Hb & -> & -> & Hc)|(Hb & j & t & Hj & Hf & Hok & -> & -> & Hc)]).
      * exists ([] :: rs2). split; [by rewrite <- app_assoc|].
        simpl. rewrite Hc in Hla. by eapply loop_blank.
      * exists (t :: rs2). split; [by rewrite <- app_assoc|].
        rewrite <- app_assoc. simpl. rewrite Hc in Hla.
        by eapply loop_translated.
    + intros [= <- <-]. split; [done|]. split; [done|].
      exists acts1. by repeat split.
Qed.

(** *** The three ways through [run] *)

Lemma clear_proxy_with_proxy env tr c acts :
  clear_proxy (State (with_proxy env) tr c acts) =
  (Ok tt, State (without_proxy env) tr c (acts ++ proxy_cleared)).
Proof.
  unfold clear_proxy, bind, delenv_if_present, with_proxy, without_proxy. simpl.
  rewrite bool_decide_true
    by (rewrite lookup_insert_ne, lookup_insert_eq by done; by eexists).
  simpl.
  rewrite bool_decide_true
    by (rewrite lookup_delete_ne, lookup_insert_eq by done; by eexists).
  simpl. rewrite <- app_assoc. simpl. do 2 f_equal.
  apply map_eq. intros k.
  destruct (decide (k = "https_proxy")) as [->|Hk1];
    [by rewrite !lookup_delete_eq|].
  rewrite !(lookup_delete_ne _ "https_proxy") by done.
  destruct (decide (k = "http_proxy")) as [->|Hk2];
    [by rewrite !lookup_delete_eq|].
  rewrite !(lookup_delete_ne _ "http_proxy") by done.
  by rewrite !lookup_insert_ne by done.
Qed.

(** The probe raises: one error signal, nothing else. *)
Lemma run_probe_fails net texts env e :
  probe net = HttpFails e ->
  run net texts (init env) =
  (Ok tt, State (without_proxy env) false 0
            (proxy_set ++
             [HttpGet probe_url;
              Emit (error (py "代理连接测试失败: " ++ str_of_exn e))] ++
             proxy_cleared)).
Proof.
  intros Hp. unfold run, try_finally, try_except at 1, bind at 1, test_proxy.
  unfold try_except, bind, setenv, requests_get. simpl. rewrite Hp.
  unfold raise, emit, act. simpl.
  fold (with_proxy env). by rewrite clear_proxy_with_proxy.
Qed.

(** The probe is answered with a status other than 200: [run] returns
    without any signal. *)
Lemma run_probe_rejected net texts env code :
  probe net = Status code -> code <> 200%Z ->
  run net texts (init env) =
  (Ok tt, State (without_proxy env) false 0
            (proxy_set ++ [HttpGet probe_url] ++ proxy_cleared)).
Proof.
  intros Hp Hc. unfold run, try_finally, try_except at 1, bind at 1, test_proxy.
  unfold try_except, bind, setenv, requests_get. simpl. rewrite Hp.
  rewrite (proj2 (Z.eqb_neq code 200) Hc). unfold ret. simpl.
  fold (with_proxy env). by rewrite clear_proxy_with_proxy.
Qed.

(** The probe is answered with status 200: the loop runs, and its end
    decides the one signal that follows it. *)
Lemma run_probe_ok net texts env r s1 :
  probe net = Status 200 ->
  run_loop net (length texts) 0 texts []
    (State (with_proxy env) true 0
       (proxy_set ++ [HttpGet probe_url; Emit translation_started])) = (r, s1) ->
  run net texts (init env) =
  (Ok tt, State (without_proxy env) true (calls s1)
            (trace s1 ++ Emit (final_signal r) :: proxy_cleared)).
Proof.
  intros Hp Hloop.
  destruct (run_loop_spec net (length texts) texts 0 [] _ r s1
              (eq_refl true : translator (State _ true _ _) = true) Hloop)
    as (Henv & Htr & _).
  cbn [environ] in Henv.
  unfold run, try_finally, try_except at 1, bind at 1, test_proxy.
  unfold try_except, bind, setenv, requests_get, create_translator. simpl. rewrite Hp.
  simpl. unfold ret, emit, act. simpl.
  unfold with_proxy, proxy_set, probe_url in Hloop. simpl in Hloop. rewrite Hloop.
  destruct s1 as [env1 tr1 c1 acts1]. cbn [environ translator] in *. subst env1 tr1.
  destruct r as [rs|e]; simpl; rewrite clear_proxy_with_proxy;
    by rewrite <- app_assoc.
Qed.

(** *** Projections of traces *)

Lemma signals_app a b : signals (a ++ b) = signals a ++ signals b.
Proof. apply omap_app. Qed.

Lemma last_signal_before_clear acts sg :
  last (signals (acts ++ Emit sg :: proxy_cleared)) = Some sg.
Proof.
  rewrite signals_app.
  change (signals (Emit sg :: proxy_cleared)) with [sg].
  apply last_snoc.
Qed.

Lemma progress_values_app a b :
  progress_values (a ++ b) = progress_values a ++ progress_values b.
Proof. apply omap_app. Qed.

Lemma item_sleeps_app a b : item_sleeps (a ++ b) = item_sleeps a + item_sleeps b.
Proof.
  unfold item_sleeps, sleeps. by rewrite omap_app, filter_app, length_app.
Qed.

Lemma failed_attempts_quiet text j :
  progress_values (failed_attempts text j) = [] /\
  item_sleeps (failed_attempts text j) = 0.
Proof.
  induction j as [|j [IH1 IH2]]; [done|].
  change (failed_attempts text (S j))
    with ([Translate text; Sleep 1] ++ failed_attempts text j).
  by rewrite progress_values_app, item_sleeps_app, IH1, IH2.
Qed.

Lemma loop_actions_facts net total i n texts rs acts :
  loop_actions net total i n texts rs acts ->
  length rs = length texts /\
  item_sleeps acts = length texts /\
  Forall (fun t => truthy (strip t) = true) (translate_calls acts) /\
  Forall2 (fun k v => progress_value k total = Ok v)
    (seq i (length texts)) (progress_values acts).
Proof.
  induction 1 as [i n|i n text texts p rs acts Hb Hp _ (IH1 & IH2 & IH3 & IH4)
                 |i n j t text texts p rs acts Hb Hj Hf Hok Hp _ (IH1 & IH2 & IH3 & IH4)].
  - repeat split; constructor.
  - rewrite Nat.add_1_r in IH4.
    split; [simpl; by f_equal|]. split; [|split].
    + change (Emit (progress p) :: Sleep (1 # 2) :: acts)
        with ([Emit (progress p); Sleep (1 # 2)] ++ acts).
      rewrite item_sleeps_app, IH2. done.
    + done.
    + simpl. by constructor.
  - rewrite Nat.add_1_r in IH4.
    destruct (failed_attempts_quiet text j) as [Hq1 Hq2].
    split; [simpl; by f_equal|]. split; [|split].
    + change (Translate text :: Emit (progress p) :: Sleep (1 # 2) :: acts)
        with ([Translate text; Emit (progress p); Sleep (1 # 2)] ++ acts).
      rewrite !item_sleeps_app, Hq2, IH2. done.
    + rewrite translate_calls_app, translate_calls_failed_attempts.
      apply Forall_app. split; [by apply Forall_replicate|].
      by constructor.
    + rewrite progress_values_app, Hq1. simpl. by constructor.
Qed.

Lemma replay_env_app a b env :
  replay_env (a ++ b) env = replay_env b (replay_env a env).
Proof. apply foldl_app. Qed.

Lemma replay_env_no_env acts : forall env,
  no_env_action acts -> replay_env acts env = env.
Proof.
  induction acts as [|a acts IH]; intros env Hne; [done|].
  inversion Hne as [|? ? Ha Hne']; subst.
  destruct a; try done; by apply IH.
Qed.

(** The shape of every run: the two variables are set first, cleared
    last, and not touched in between. *)
Lemma run_trace_shape net texts env :
  exists mid,
    trace (run net texts (init env)).2 = proxy_set ++ mid ++ proxy_cleared /\
    no_env_action mid /\
    environ (run net texts (init env)).2 = without_proxy env.
Proof.
  destruct (probe net) as [code|e] eqn:Hp.
  - destruct (decide (code = 200%Z)) as [->|Hc].
    + destruct (run_loop net (length texts) 0 texts []
                  (State (with_proxy env) true 0
                     (proxy_set ++ [HttpGet probe_url; Emit translation_started])))
        as [r s1] eqn:Hloop.
      rewrite (run_probe_ok _ _ _ _ _ Hp Hloop).
      destruct (run_loop_spec net (length texts) texts 0 [] _ r s1
                  (eq_refl true : translator (State _ true _ _) = true) Hloop)
        as (_ & _ & acts & Htrace & Hne & _).
      cbn [trace] in Htrace. cbn [snd trace environ]. rewrite Htrace.
      exists ([HttpGet probe_url; Emit translation_started] ++ acts ++ [Emit (final_signal r)]).
      split; [by rewrite <- !app_assoc|]. split; [|done].
      apply Forall_app. split; [by repeat constructor|].
      apply Forall_app. split; [done|by repeat constructor].
    + rewrite (run_probe_rejected _ _ _ _ Hp Hc). cbn [snd trace environ].
      exists [HttpGet probe_url]. split; [done|]. split; [by repeat constructor|done].
  - rewrite (run_probe_fails _ _ _ _ Hp). cbn [snd trace environ].
    eexists [_; _]. split; [done|]. split; [by repeat constructor|done].
Qed.

End WorkerFacts.

(** ** The specification's statements about the worker *)

Section WorkerClaims.
Context {U : UnicodeTables}.

(** C7: when the probe succeeds and the run ends with the [finished]
    signal, the items were processed in input order, each as the
    specification says: a blank item gave the empty string with no call of
    the provider, any other item was handed to [translate_text] and gave
    its result, and after every item, blank or not, the worker waited half
    a second (once per item). *)
Theorem run_items_in_order net texts env rs :
  probe net = Status 200 ->
  last (signals (trace (run net texts (init env)).2)) = Some (finished rs) ->
  exists acts,
    trace (run net texts (init env)).2 =
      proxy_set ++ [HttpGet probe_url; Emit translation_started] ++ acts ++
      Emit (finished rs) :: proxy_cleared /\
    loop_actions net (length texts) 0 0 texts rs acts /\
    length rs = length texts /\
    item_sleeps acts = length texts /\
    Forall (fun t => truthy (strip t) = true) (translate_calls acts).
Proof.
  intros Hp.
  destruct (run_loop net (length texts) 0 texts []
              (State (with_proxy env) true 0
                 (proxy_set ++ [HttpGet probe_url; Emit translation_started])))
    as [r s1] eqn:Hloop.
  rewrite (run_probe_ok _ _ _ _ _ Hp Hloop).
  destruct (run_loop_spec net (length texts) texts 0 [] _ r s1
              (eq_refl true : translator (State _ true _ _) = true) Hloop)
    as (_ & _ & acts & Htrace & _ & Hr).
  cbn [trace calls] in Htrace, Hr. cbn [snd trace]. rewrite Htrace.
  rewrite last_signal_before_clear.
  intros [= Hlast]. destruct r as [rs0|e]; [|done].
  simpl in Hlast. injection Hlast as ->.
  destruct Hr as (rs' & Hrs & Hla). simpl in Hrs. subst rs'.
  exists acts. split; [by rewrite <- !app_assoc|]. split; [done|].
  destruct (loop_actions_facts _ _ _ _ _ _ _ Hla) as (H1 & H2 & H3 & _).
  by repeat split.
Qed.

(** C5, as the code has it: when the probe succeeds and the run ends with
    the [finished] signal, one progress value was emitted per item, in
    order, and the value for item i is [int((i+1)/total*100)]: the floating
    point product truncated toward zero, not rounded.  For lists of up to
    100 items that value v satisfies v <= 100(i+1)/total <= v+1, and it
    is 100 at the last item. *)
Theorem progress_after_each_item net texts env rs :
  probe net = Status 200 ->
  last (signals (trace (run net texts (init env)).2)) = Some (finished rs) ->
  Forall2 (fun i v => progress_value i (length texts) = Ok v)
    (seq 0 (length texts))
    (progress_values (trace (run net texts (init env)).2)) /\
  (forall total i, 0 < total <= 100 -> i < total ->
     exists v, progress_value i total = Ok v /\
       (v * Z.of_nat total <= 100 * Z.of_nat (i + 1) <= (v + 1) * Z.of_nat total)%Z /\
       (i + 1 = total -> v = 100%Z)).
Proof.
  intros Hp Hlast. split.
  - revert Hlast.
    destruct (run_loop net (length texts) 0 texts []
                (State (with_proxy env) true 0
                   (proxy_set ++ [HttpGet probe_url; Emit translation_started])))
      as [r s1] eqn:Hloop.
    rewrite (run_probe_ok _ _ _ _ _ Hp Hloop).
    destruct (run_loop_spec net (length texts) texts 0 [] _ r s1
                (eq_refl true : translator (State _ true _ _) = true) Hloop)
      as (_ & _ & acts & Htrace & _ & Hr).
    cbn [trace calls] in Htrace, Hr. cbn [snd trace]. rewrite Htrace.
    rewrite last_signal_before_clear.
    intros [= Hlast]. destruct r as [rs0|e]; [|done].
    destruct Hr as (rs' & _ & Hla).
    destruct (loop_actions_facts _ _ _ _ _ _ _ Hla) as (_ & _ & _ & H4).
    rewrite !progress_values_app.
    change (progress_values (proxy_set ++ [HttpGet probe_url; Emit translation_started]))
      with (@nil Z).
    change (progress_values (Emit (final_signal (Ok rs0)) :: proxy_cleared))
      with (@nil Z).
    by rewrite app_nil_r.
  - intros total i [Ht1 Ht2] Hi.
    assert (progress_truncates_upto 100 = true) as Hall by (vm_compute; reflexivity).
    unfold progress_truncates_upto in Hall.
    rewrite forallb_forall in Hall.
    specialize (Hall total). rewrite in_seq in Hall.
    specialize (Hall ltac:(lia)). rewrite forallb_forall in Hall.
    specialize (Hall i). rewrite in_seq in Hall. specialize (Hall ltac:(lia)).
    unfold progress_truncates in Hall.
    destruct (progress_value i total) as [v|e]; [|done].
    apply andb_prop in Hall as [Hall H3]. apply andb_prop in Hall as [H1 H2].
    apply Z.leb_le in H1, H2.
    exists v. split; [done|]. split; [lia|].
    intros Heq. rewrite bool_decide_true in H3 by done. by apply Z.eqb_eq in H3.
Qed.

(** C3, at the failing input: with the probe answered by status 503,
    [run] makes no call of the provider, and emits no signal at all, the
    [error] signal included. *)
Theorem run_probe_503_is_silent replies texts env :
  signals (trace (run (Network (Status 503) replies) texts (init env)).2) = [] /\
  translate_calls (trace (run (Network (Status 503) replies) texts (init env)).2) = [].
Proof.
  by rewrite (run_probe_rejected (Network (Status 503) replies) texts env 503).
Qed.

(** C6, at the failing input: a thread terminated after its first two
    actions and before its last two has both proxy variables set. *)
Theorem terminate_leaves_proxy_set net texts env n :
  2 <= n ->
  n + 2 <= length (trace (run net texts (init env)).2) ->
  environ_if_terminated (run net texts) env n !! "http_proxy"
    = Some "http://127.0.0.1:7890" /\
  environ_if_terminated (run net texts) env n !! "https_proxy"
    = Some "http://127.0.0.1:7890".
Proof.
  intros Hn2 Hlen. unfold environ_if_terminated.
  destruct (run_trace_shape net texts env) as (mid & Htrace & Hne & _).
  rewrite Htrace in *. rewrite !length_app in Hlen. simpl in Hlen.
  rewrite take_app_ge by (simpl; lia).
  rewrite take_app_le by (simpl; lia).
  rewrite replay_env_app.
  rewrite (replay_env_no_env (take _ mid)) by (by apply Forall_take).
  simpl. split; [by rewrite lookup_insert_ne, lookup_insert_eq|
                 by rewrite lookup_insert_eq].
Qed.

End WorkerClaims.

(** *** Worked instances, on the basic tables *)

Section WorkerInstances.
#[local] Existing Instance basic_tables.

Lemma translate_text_retry_witness :
  translator ready = true /\
  translate_text net_flaky (py "Hello") ready =
  (Ok (py "你好"),
   State ∅ true 3
     [Translate (py "Hello"); Sleep 1; Translate (py "Hello"); Sleep 1;
      Translate (py "Hello")]).
Proof.
  split; [reflexivity|].
  destruct (translate_text_retry net_flaky (py "Hello") ready eq_refl) as (Hs & _ & _).
  rewrite (Hs 2 (py "你好")).
  - vm_compute. reflexivity.
  - lia.
  - intros i Hi. exists (Exception (py "timed out")).
    destruct i as [|[|i]]; [reflexivity|reflexivity|lia].
  - reflexivity.
Defined.

Lemma run_flaky_finishes :
  last (signals (trace (run net_flaky (L ["Hello"; " "]) (init ∅)).2)) =
  Some (finished (L ["你好"; ""])).
Proof. vm_compute. reflexivity. Qed.

Lemma run_items_in_order_witness :
  probe net_flaky = Status 200 /\
  last (signals (trace (run net_flaky (L ["Hello"; " "]) (init ∅)).2)) =
    Some (finished (L ["你好"; ""])) /\
  exists acts,
    trace (run net_flaky (L ["Hello"; " "]) (init ∅)).2 =
      proxy_set ++ [HttpGet probe_url; Emit translation_started] ++ acts ++
      Emit (finished (L ["你好"; ""])) :: proxy_cleared /\
    loop_actions net_flaky (length (L ["Hello"; " "])) 0 0 (L ["Hello"; " "])
      (L ["你好"; ""]) acts /\
    length (L ["你好"; ""]) = length (L ["Hello"; " "]) /\
    item_sleeps acts = length (L ["Hello"; " "]) /\
    Forall (fun t => truthy (strip t) = true) (translate_calls acts).
Proof.
  split; [reflexivity|]. split; [exact run_flaky_finishes|].
  apply (run_items_in_order net_flaky (L ["Hello"; " "]) ∅ (L ["你好"; ""]) eq_refl
           run_flaky_finishes).
Defined.

Lemma progress_after_each_item_witness :
  probe net_flaky = Status 200 /\
  last (signals (trace (run net_flaky (L ["Hello"; " "]) (init ∅)).2)) =
    Some (finished (L ["你好"; ""])) /\
  progress_values (trace (run net_flaky (L ["Hello"; " "]) (init ∅)).2) = [50%Z; 100%Z] /\
  Forall2 (fun i v => progress_value i (length (L ["Hello"; " "])) = Ok v)
    (seq 0 (length (L ["Hello"; " "])))
    (progress_values (trace (run net_flaky (L ["Hello"; " "]) (init ∅)).2)).
Proof.
  split; [reflexivity|]. split; [exact run_flaky_finishes|].
  split; [vm_compute; reflexivity|].
  apply (progress_after_each_item net_flaky (L ["Hello"; " "]) ∅ (L ["你好"; ""]) eq_refl
           run_flaky_finishes).
Defined.

(** C5 fails as stated: for the second of three items the code emits
    [int(2/3*100)] = 66, and the rounded percentage is 67. *)
Lemma progress_is_not_rounded :
  progress_values (trace (run net_echo (L ["a"; "b"; "c"]) (init ∅)).2) =
    [33%Z; 66%Z; 100%Z] /\
  map (fun i => rounded_percentage i 3) [0; 1; 2] = [33%Z; 67%Z; 100%Z] /\
  progress_value 1 3 = Ok 66%Z /\
  progress_value 1 3 <> Ok (rounded_percentage 1 3).
Proof. vm_compute. repeat split; try reflexivity. discriminate. Qed.

Lemma terminate_leaves_proxy_set_witness :
  2 <= 6 /\
  6 + 2 <= length (trace (run net_flaky (L ["Hello"; " "]) (init ∅)).2) /\
  environ_if_terminated (run net_flaky (L ["Hello"; " "])) ∅ 6 !! "http_proxy"
    = Some "http://127.0.0.1:7890" /\
  environ_if_terminated (run net_flaky (L ["Hello"; " "])) ∅ 6 !! "https_proxy"
    = Some "http://127.0.0.1:7890".
Proof.
  assert (6 + 2 <= length (trace (run net_flaky (L ["Hello"; " "]) (init ∅)).2)) as Hlen
    by (vm_compute; lia).
  split; [lia|]. split; [exact Hlen|].
  apply (terminate_leaves_proxy_set net_flaky (L ["Hello"; " "]) ∅ 6 ltac:(lia) Hlen).
Defined.

End WorkerInstances.

(** ** Round trip of the subtitle document *)

Section RoundTrip.
Context {U : UnicodeTables}.

(** Splitting what [serialize] joins gives the lines back, and one empty
    string after the last line break. *)
Lemma split_nl_lines ls :
  Forall (fun l => 10%N ∉ l) ls ->
  split_nl (flat_map (fun l => l ++ [10%N]) ls) = ls ++ [[]].
Proof.
  induction 1 as [|l ls Hl _ IH]; [done|].
  simpl. rewrite <- app_assoc. simpl. by rewrite split_nl_line, IH.
Qed.

Lemma uint_of_digits_str d : Spec.uint_of_digits (str_of_uint d) = Some d.
Proof. induction d; simpl; try done; by rewrite IHd. Qed.

Lemma str_of_uint_no_break d : 10%N ∉ str_of_uint d.
Proof.
  induction d; simpl; [by intros ?%elem_of_nil|..];
    by intros [?|?]%elem_of_cons.
Qed.

Lemma to_uint_not_nil n : Nat.to_uint n <> Nil.
Proof.
  rewrite <- (DecimalNat.Unsigned.of_to n) at 1.
  rewrite DecimalNat.Unsigned.to_of. apply DecimalFacts.unorm_nonnil.
Qed.

(** [str(n)] is purely digits and reads back as [n]. *)
Lemma int_of_digits_str n : Spec.int_of_digits (str_of_int n) = Some n.
Proof.
  unfold Spec.int_of_digits, str_of_int.
  pose proof (to_uint_not_nil n) as Hn.
  pose proof (uint_of_digits_str (Nat.to_uint n)) as Hd.
  destruct (str_of_uint (Nat.to_uint n)) as [|c s] eqn:Hs.
  - destruct (Nat.to_uint n); try done; discriminate.
  - rewrite Hd. simpl. by rewrite DecimalNat.Unsigned.of_to.
Qed.

Lemma blank_empty : Spec.blank [] = true.
Proof. done. Qed.

(** The text lines of a block, then its separator. *)
Lemma parse_lines_text n time rest : forall txt acc,
  Forall Spec.text_line_ok txt ->
  Spec.parse_lines (Spec.InText n time acc) (txt ++ [] :: rest) =
  Spec.Block n time (acc ++ txt) :: Spec.parse_lines Spec.Outside rest.
Proof.
  induction txt as [|l txt IH]; intros acc Hok.
  - simpl. by rewrite app_nil_r.
  - inversion Hok as [|? ? (_ & Hb & Hd) Hok']; subst.
    simpl. rewrite Hb, Hd. rewrite IH by done.
    by rewrite <- app_assoc.
Qed.

Lemma parse_lines_block b rest :
  Spec.block_ok b ->
  Spec.parse_lines Spec.Outside (Spec.block_lines b ++ rest) =
  b :: Spec.parse_lines Spec.Outside rest.
Proof.
  destruct b as [n time txt]. intros [_ Hok]. unfold Spec.block_lines. simpl in *.
  rewrite int_of_digits_str. rewrite <- app_assoc. simpl.
  by rewrite parse_lines_text.
Qed.

(** Parsing the lines of a document of blocks that [parse] can produce
    gives the document back. *)
Lemma parse_lines_document doc :
  Forall Spec.block_ok doc ->
  Spec.parse_lines Spec.Outside (Spec.document_lines doc ++ [[]]) = doc.
Proof.
  induction 1 as [|b doc Hb _ IH]; [done|].
  unfold Spec.document_lines in *.
  change (flat_map Spec.block_lines (b :: doc))
    with (Spec.block_lines b ++ flat_map Spec.block_lines doc).
  rewrite <- app_assoc.
  by rewrite parse_lines_block, IH.
Qed.

Lemma document_lines_no_break doc :
  Forall Spec.block_ok doc ->
  Forall (fun l => 10%N ∉ l) (Spec.document_lines doc).
Proof.
  induction 1 as [|b doc [Ht Htxt] _ IH]; [constructor|].
  unfold Spec.document_lines in *. simpl.
  constructor; [apply str_of_uint_no_break|].
  constructor; [done|].
  rewrite <- app_assoc. apply Forall_app. split.
  - eapply Forall_impl; [exact Htxt|]. by intros l (? & _).
  - constructor; [by intros ?%elem_of_nil|done].
Qed.

(** [parse] after [serialize] is the identity on such documents. *)
Lemma parse_serialize doc :
  Forall Spec.block_ok doc -> Spec.parse (Spec.serialize doc) = doc.
Proof.
  intros Hok. unfold Spec.parse, Spec.serialize.
  rewrite split_nl_lines by by apply document_lines_no_break.
  by apply parse_lines_document.
Qed.

(** Every block [parse] produces is one that [parse] can produce. *)
Lemma parse_lines_ok lines : forall st,
  Forall (fun l => 10%N ∉ l) lines -> Spec.state_ok st ->
  Forall Spec.block_ok (Spec.parse_lines st lines).
Proof.
  induction lines as [|l lines IH]; intros st Hl Hst.
  - destruct st as [|n|n time txt]; simpl.
    + constructor.
    + constructor.
    + constructor; [exact Hst|constructor].
  - inversion Hl as [|? ? Hl1 Hl2]; subst.
    destruct st as [|n|n time txt]; simpl.
    + destruct (Spec.int_of_digits l); by apply IH.
    + apply IH; [done|]. simpl. split; [done|constructor].
    + destruct Hst as [Ht Htxt].
      destruct (Spec.blank l) eqn:Hb.
      * constructor; [done|]. by apply IH.
      * destruct (Spec.int_of_digits l) eqn:Hd.
        -- constructor; [done|]. by apply IH.
        -- apply IH; [done|]. simpl. split; [done|].
           apply Forall_app. split; [done|]. by repeat constructor.
Qed.

(** C9: serializing the parse of any input and parsing it again gives
    the same caption blocks, each with its index, time range and text
    lines unchanged; and for a document of blocks as [parse] produces
    them, [parse] undoes [serialize]. *)
Theorem serialize_parse_round_trip :
  (forall raw, Spec.parse (Spec.serialize (Spec.parse raw)) = Spec.parse raw) /\
  (forall raw, Forall Spec.block_ok (Spec.parse raw)) /\
  (forall doc, Forall Spec.block_ok doc -> Spec.parse (Spec.serialize doc) = doc).
Proof.
  assert (forall raw, Forall Spec.block_ok (Spec.parse raw)) as Hok.
  { intros raw. apply parse_lines_ok; [apply split_nl_no_break|done]. }
  split; [|split; [done|apply parse_serialize]].
  intros raw. by apply parse_serialize.
Qed.

End RoundTrip.

(** ** Further properties of the worker *)

Section WorkerMore.
Context {U : UnicodeTables}.

Lemma loop_action_ok_mono texts texts' a :
  texts ⊆ texts' -> loop_action_ok texts a -> loop_action_ok texts' a.
Proof.
  intros Hsub. destruct a as [| | |t| |sg]; simpl; try done.
  intros [Hin Hb]. split; [by apply Hsub|done].
Qed.

Lemma failed_attempts_ok text j :
  truthy (strip text) = true ->
  Forall (loop_action_ok [text]) (failed_attempts text j).
Proof.
  intros Hb. induction j as [|j IH]; [by constructor|].
  change (failed_attempts text (S j))
    with ([Translate text; Sleep 1] ++ failed_attempts text j).
  apply Forall_app. split; [|done].
  constructor; [split; [by left|done]|].
  constructor; [done|constructor].
Qed.

Lemma failed_attempts_no_signal text j : signals (failed_attempts text j) = [].
Proof.
  induction j as [|j IH]; [done|].
  change (failed_attempts text (S j))
    with ([Translate text; Sleep 1] ++ failed_attempts text j).
  by rewrite signals_app, IH.
Qed.

(** One item, whatever its end: what was done, and how much of it. *)
Lemma run_item_actions net total i text acc s :
  translator s = true ->
  exists acts,
    trace (run_item net total i text acc s).2 = trace s ++ acts /\
    Forall (loop_action_ok [text]) acts /\
    length (translate_calls acts) <= (if truthy (strip text) then 3 else 0) /\
    length (progress_values acts) <= 1 /\
    signals acts = map progress (progress_values acts).
Proof.
  intros Htr. unfold run_item.
  destruct (truthy (strip text)) eqn:Hblank.
  - assert (Translate text :: [] = [Translate text]) as _ by done.
    assert (loop_action_ok [text] (Translate text)) as Hok
      by (split; [by left|done]).
    unfold bind at 1. unfold bind at 1.
    destruct (translate_text_cases net text s Htr)
      as [(j & t & Hj & _ & _ & ->)|(msg & ->)].
    + unfold ret at 1. unfold bind, emit, sleep, act, ret. simpl.
      destruct (failed_attempts_quiet text j) as [Hq1 Hq2].
      pose proof (translate_calls_failed_attempts text j) as Hq3.
      pose proof (failed_attempts_no_signal text j) as Hq4.
      destruct (progress_value i total) as [p|e] eqn:Hp; simpl.
      * exists (failed_attempts text j ++ [Translate text; Emit (progress p); Sleep (1 # 2)]).
        split; [by rewrite <- !app_assoc|].
        split; [apply Forall_app; split;
                [by apply failed_attempts_ok|by repeat constructor]|].
        rewrite translate_calls_app, progress_values_app, signals_app, Hq1, Hq3, Hq4.
        rewrite length_app, length_replicate. simpl. repeat split; lia.
      * exists (failed_attempts text j ++ [Translate text]).
        split; [done|].
        split; [apply Forall_app; split;
                [by apply failed_attempts_ok|by repeat constructor]|].
        rewrite translate_calls_app, progress_values_app, signals_app, Hq1, Hq3, Hq4.
        rewrite length_app, length_replicate. simpl. repeat split; lia.
    + simpl. exists (failed_attempts text 3). split; [done|].
      split; [by apply failed_attempts_ok|].
      destruct (failed_attempts_quiet text 3) as [Hq1 _].
      rewrite Hq1, translate_calls_failed_attempts, length_replicate,
        failed_attempts_no_signal.
      simpl. repeat split; lia.
  - unfold bind, emit, sleep, act, ret. simpl.
    destruct (progress_value i total) as [p|e] eqn:Hp; simpl.
    + exists [Emit (progress p); Sleep (1 # 2)].
      split; [by rewrite <- !app_assoc|]. split; [by repeat constructor|].
      simpl. repeat split; lia.
    + exists []. split; [by rewrite app_nil_r|]. split; [by constructor|].
      simpl. repeat split; lia.
Qed.

(** The whole loop, whatever its end. *)
Lemma run_loop_actions net total : forall texts i acc s,
  translator s = true ->
  exists acts,
    trace (run_loop net total i texts acc s).2 = trace s ++ acts /\
    Forall (loop_action_ok texts) acts /\
    length (translate_calls acts) <=
      3 * length (filter (fun t => truthy (strip t) = true) texts) /\
    length (progress_values acts) <= length texts /\
    signals acts = map progress (progress_values acts).
Proof.
  induction texts as [|text texts IH]; intros i acc s Htr.
  - simpl. exists []. split; [by rewrite app_nil_r|]. by repeat split.
  - simpl. unfold bind at 1.
    destruct (run_item_actions net total i text acc s Htr)
      as (acts1 & Htrace1 & Hok1 & Hc1 & Hp1 & Hs1).
    destruct (run_item net total i text acc s) as [r1 s1] eqn:Hitem.
    destruct (run_item_spec _ _ _ _ _ _ _ _ Htr Hitem) as (_ & Htr1 & _).
    cbn [snd] in Htrace1.
    assert (Forall (loop_action_ok (text :: texts)) acts1) as Hok1'.
    { eapply Forall_impl; [exact Hok1|]. intros a. apply loop_action_ok_mono.
      intros x ->%list_elem_of_singleton. by left. }
    assert (length (translate_calls acts1) <=
            3 * length (filter (fun t => truthy (strip t) = true) [text])) as Hc1'.
    { rewrite filter_cons, filter_nil.
      destruct (decide (truthy (strip text) = true)) as [Hb|Hb].
      - rewrite Hb in Hc1. simpl. lia.
      - destruct (truthy (strip text)); [done|]. simpl. lia. }
    destruct r1 as [rs1|e1].
    + destruct (IH (i + 1) rs1 s1 Htr1) as (acts2 & Htrace2 & Hok2 & Hc2 & Hp2 & Hs2).
      exists (acts1 ++ acts2).
      split; [by rewrite Htrace2, Htrace1, <- app_assoc|].
      split.
      { apply Forall_app. split; [done|].
        eapply Forall_impl; [exact Hok2|]. intros a. apply loop_action_ok_mono.
        intros x Hx. by right. }
      rewrite translate_calls_app, progress_values_app, signals_app, !length_app.
      rewrite Hs1, Hs2, map_app.
      change (text :: texts) with ([text] ++ texts).
      rewrite filter_app, !length_app. simpl. repeat split; lia.
    + exists acts1. cbn [snd]. split; [done|]. split; [done|].
      change (text :: texts) with ([text] ++ texts).
      rewrite filter_app, !length_app. simpl. repeat split; [lia|lia|done].
Qed.

(** The trace of a run that passed the probe, around the loop's actions. *)
Lemma run_ok_trace net texts env :
  probe net = Status 200 ->
  exists acts final,
    trace (run net texts (init env)).2 =
      proxy_set ++ [HttpGet probe_url; Emit translation_started] ++ acts ++
      Emit final :: proxy_cleared /\
    Forall (loop_action_ok texts) acts /\
    length (translate_calls acts) <=
      3 * length (filter (fun t => truthy (strip t) = true) texts) /\
    length (progress_values acts) <= length texts /\
    signals acts = map progress (progress_values acts) /\
    ((exists rs, final = finished rs /\ length rs = length texts /\
                 length (progress_values acts) = length texts) \/
     (exists msg, final = error msg)).
Proof.
  intros Hp.
  pose (s0 := State (with_proxy env) true 0
                (proxy_set ++ [HttpGet probe_url; Emit translation_started])).
  destruct (run_loop_actions net (length texts) texts 0 [] s0 eq_refl)
    as (acts & Htrace & Hok & Hc & Hpv & Hs).
  destruct (run_loop net (length texts) 0 texts [] s0) as [r s1] eqn:Hloop.
  rewrite (run_probe_ok _ _ _ _ _ Hp Hloop).
  cbn [snd trace] in *. rewrite Htrace. unfold s0. cbn [trace].
  exists acts, (final_signal r).
  split; [by rewrite <- !app_assoc|]. do 4 (split; [done|]).
  destruct r as [rs|e]; [left|right; by eexists].
  exists rs. split; [done|].
  destruct (run_loop_spec net (length texts) texts 0 [] s0 (Ok rs) s1 eq_refl Hloop)
    as (_ & _ & acts' & Htrace' & _ & rs' & Hrs & Hla).
  rewrite Htrace in Htrace'. apply app_inv_head in Htrace'. subst acts'.
  simpl in Hrs. subst rs'.
  destruct (loop_actions_facts _ _ _ _ _ _ _ Hla) as (H1 & _ & _ & H4).
  split; [done|]. apply Forall2_length in H4. by rewrite length_seq in H4.
Qed.

(** X1: whatever the probe and the provider do, a run that is not
    terminated leaves the process environment without the two proxy
    variables and with every other variable as it was (a value that
    [http_proxy] had before the run is not restored). *)
Theorem run_clears_proxy net texts env :
  environ (run net texts (init env)).2 = without_proxy env /\
  environ (run net texts (init env)).2 !! "http_proxy" = None /\
  environ (run net texts (init env)).2 !! "https_proxy" = None /\
  (forall key, key <> "http_proxy" -> key <> "https_proxy" ->
     environ (run net texts (init env)).2 !! key = env !! key).
Proof.
  destruct (run_trace_shape net texts env) as (_ & _ & _ & ->).
  unfold without_proxy. split; [done|]. split; [|split].
  - by rewrite lookup_delete_ne, lookup_delete_eq.
  - by rewrite lookup_delete_eq.
  - intros key H1 H2. by rewrite !lookup_delete_ne.
Qed.

(** X2: when the probe request raises, the run emits exactly one signal,
    [error], with the text of the exception after the prefix of
    [test_proxy]; the provider is not called and [translation_started] is
    not emitted. *)
Theorem run_probe_exception_one_error net texts env e :
  probe net = HttpFails e ->
  signals (trace (run net texts (init env)).2) =
    [error (py "代理连接测试失败: " ++ str_of_exn e)] /\
  translate_calls (trace (run net texts (init env)).2) = [].
Proof. intros Hp. by rewrite (run_probe_fails _ _ _ _ Hp). Qed.

(** X3: the signals of a run, in order, are: none at all when the probe
    is answered with a status other than 200; one [error] when the probe
    raises; otherwise [translation_started], then at most one [progress]
    per text, then exactly one of [finished] and [error] - [finished]
    only after a progress value for every text, with as many results as
    texts. *)
Theorem run_signal_protocol net texts env :
  match probe net with
  | HttpFails e =>
      signals (trace (run net texts (init env)).2) =
        [error (py "代理连接测试失败: " ++ str_of_exn e)]
  | Status code =>
      if (code =? 200)%Z then
        exists values final,
          signals (trace (run net texts (init env)).2) =
            translation_started :: map progress values ++ [final] /\
          length values <= length texts /\
          ((exists rs, final = finished rs /\ length rs = length texts /\
                       length values = length texts) \/
           (exists msg, final = error msg))
      else signals (trace (run net texts (init env)).2) = []
  end.
Proof.
  destruct (probe net) as [code|e] eqn:Hp.
  - destruct (code =? 200)%Z eqn:Hc.
    + apply Z.eqb_eq in Hc. subst code.
      destruct (run_ok_trace net texts env Hp)
        as (acts & final & -> & _ & _ & Hpv & Hs & Hfinal).
      exists (progress_values acts), final.
      split; [|by split].
      rewrite !signals_app, Hs.
      change (signals proxy_set) with (@nil signal).
      change (signals [HttpGet probe_url; Emit translation_started])
        with [translation_started].
      by change (signals (Emit final :: proxy_cleared)) with [final].
    + apply Z.eqb_neq in Hc. by rewrite (run_probe_rejected _ _ _ _ Hp Hc).
  - by rewrite (run_probe_fails _ _ _ _ Hp).
Qed.

(** X4: the provider is only ever called with texts of the input that are
    not blank, and at most three times for each of them; a run over blank
    texts only never calls it. *)
Theorem run_calls_only_nonblank_texts net texts env :
  Forall (fun t => t ∈ texts /\ truthy (strip t) = true)
    (translate_calls (trace (run net texts (init env)).2)) /\
  length (translate_calls (trace (run net texts (init env)).2)) <=
    3 * length (filter (fun t => truthy (strip t) = true) texts) /\
  (Forall (fun t => truthy (strip t) = false) texts ->
   translate_calls (trace (run net texts (init env)).2) = []).
Proof.
  assert (Forall (fun t => t ∈ texts /\ truthy (strip t) = true)
            (translate_calls (trace (run net texts (init env)).2)) /\
          length (translate_calls (trace (run net texts (init env)).2)) <=
            3 * length (filter (fun t => truthy (strip t) = true) texts)) as [H1 H2].
  { destruct (probe net) as [code|e] eqn:Hp.
    - destruct (decide (code = 200%Z)) as [->|Hc].
      + destruct (run_ok_trace net texts env Hp)
          as (acts & final & -> & Hok & Hc & _).
        rewrite !translate_calls_app.
        change (translate_calls proxy_set) with (@nil str).
        change (translate_calls [HttpGet probe_url; Emit translation_started])
          with (@nil str).
        change (translate_calls (Emit final :: proxy_cleared)) with (@nil str).
        rewrite app_nil_r. simpl. split; [|done].
        clear -Hok. induction Hok as [|a acts Ha _ IH]; [constructor|].
        destruct a as [| | |t| |sg]; try done. by constructor.
      + rewrite (run_probe_rejected _ _ _ _ Hp Hc). split; [constructor|simpl; lia].
    - rewrite (run_probe_fails _ _ _ _ Hp). split; [constructor|simpl; lia]. }
  split; [done|]. split; [done|].
  intros Hblank.
  destruct (translate_calls (trace (run net texts (init env)).2)) as [|t ts]; [done|].
  inversion H1 as [|? ? [Hin Hb] _]; subst.
  rewrite Forall_forall in Hblank. specialize (Hblank t Hin). congruence.
Qed.

End WorkerMore.

(** ** Further properties of the line walkers *)

Section WalkerMore.
Context {U : UnicodeTables}.

(** A property kept by every iteration holds when the loop ends. *)
Lemma while_invariant {S} (P : S -> Prop) (cond : S -> bool) (body : S -> outcome S) :
  (forall s s', P s -> cond s = true -> body s = Done s' -> P s') ->
  forall fuel s s',
    P s -> while fuel cond body s = Done s' -> P s' /\ cond s' = false.
Proof.
  intros Hstep. induction fuel as [|fuel IH]; intros s s' HP; rewrite while_unfold.
  - destruct (cond s) eqn:Hc; [done|]. by intros [= <-].
  - destruct (cond s) eqn:Hc; [|by intros [= <-]].
    destruct (body s) as [s1| |] eqn:Hb; simpl; [|done..].
    apply IH. by eapply Hstep.
Qed.

Lemma index_lines_take_le lines i j :
  i <= j -> length (index_lines (take i lines)) <= length (index_lines (take j lines)).
Proof.
  intros Hij. replace j with (i + (j - i)) by lia.
  rewrite <- take_take_drop. unfold index_lines.
  rewrite filter_app, length_app. lia.
Qed.

Lemma index_lines_take_digit lines i j d :
  lines !! i = Some d -> digit_only d = true -> i < j ->
  length (index_lines (take i lines)) + 1 <= length (index_lines (take j lines)).
Proof.
  intros Hi Hd Hij.
  pose proof (index_lines_take_le lines (S i) j ltac:(lia)) as Hle.
  rewrite (take_S_r _ _ _ Hi) in Hle. unfold index_lines in *.
  rewrite filter_app, length_app in Hle.
  rewrite filter_cons_True in Hle by done. simpl in Hle. lia.
Qed.

Lemma index_lines_take_all lines i :
  length (index_lines (take i lines)) <= length (index_lines lines).
Proof.
  rewrite <- (take_drop i lines) at 2. unfold index_lines.
  rewrite filter_app, length_app. lia.
Qed.

Lemma psl_body_invariant lines pt st st' :
  psl_invariant lines pt st ->
  psl_i st < length lines ->
  psl_body lines pt st = Done st' ->
  psl_invariant lines pt st'.
Proof.
  destruct st as [i acc n]. simpl. intros Hinv Hi.
  destruct (getitem_lt lines i Hi) as (l & Hli & Hl).
  unfold psl_body. rewrite Hl. simpl.
  destruct (isdigit (strip l)) eqn:Hd.
  - destruct pt.
    + destruct Hinv as [Hlen Hall]. simpl in Hlen, Hall.
      pose proof (index_lines_take_digit lines i (i + 2 + 1) l Hli Hd ltac:(lia)) as Hcount.
      case_bool_decide as H2.
      * destruct (getitem_lt lines _ H2) as (t & Ht & ->). simpl.
        intros [= <-]. simpl. split.
        -- rewrite length_app. simpl. lia.
        -- apply Forall_app. split; [done|]. constructor; [|constructor].
           exists t. split; [by eapply list_elem_of_lookup_2|done].
      * simpl. intros [= <-]. simpl. split; [lia|done].
    + unfold psl_invariant in *. simpl in *.
      case_bool_decide as H1.
      * destruct (getitem_lt lines _ H1) as (tm & _ & ->). simpl.
        case_bool_decide as H3.
        -- destruct (getitem_lt lines _ H3) as (c & _ & ->). simpl.
           pose proof (index_lines_take_digit lines i (i + 1 + 2 + 1) l Hli Hd ltac:(lia)).
           destruct (isdigit (strip c)); simpl; intros [= <-]; simpl;
             rewrite ?length_app; simpl; lia.
        -- simpl. intros [= <-]. simpl.
           pose proof (index_lines_take_digit lines i (i + 1 + 2 + 1) l Hli Hd ltac:(lia)).
           rewrite ?length_app. simpl. lia.
      * simpl. intros [= <-]. simpl.
        pose proof (index_lines_take_digit lines i (i + 1 + 1) l Hli Hd ltac:(lia)).
        rewrite ?length_app. simpl. lia.
  - simpl. intros [= <-].
    pose proof (index_lines_take_le lines i (i + 1) ltac:(lia)) as Hle.
    destruct pt; simpl in *; [|lia]. destruct Hinv. split; [lia|done].
Qed.

(** X5: [process_subtitle_lines] never raises, whatever the lines and the
    process type: every index it uses is in bounds and the loop ends.
    ['translate'] returns at most one text per digit-only line, each the
    stripped form of a line of the input; ['chinese_only'] returns at most
    three lines per digit-only line. *)
Theorem process_subtitle_lines_never_raises lines pt :
  exists result,
    process_subtitle_lines lines pt = Done result /\
    match pt with
    | translate =>
        length result <= length (index_lines lines) /\
        Forall (fun t => exists l, l ∈ lines /\ t = strip l) result
    | chinese_only => length result <= 3 * length (index_lines lines)
    end.
Proof.
  unfold process_subtitle_lines.
  destruct (psl_while_total lines pt (length lines) (PslState 0 [] 1)) as [st Hst];
    [simpl; lia|].
  rewrite Hst. simpl. exists (psl_result st). split; [done|].
  assert (psl_invariant lines pt (PslState 0 [] 1)) as Hinit
    by (destruct pt; simpl; [split; [lia|constructor]|lia]).
  destruct (while_invariant (psl_invariant lines pt) _ _
              (fun s s' HP Hc Hb =>
                 psl_body_invariant lines pt s s' HP
                   (proj1 (bool_decide_eq_true _) Hc) Hb)
              _ _ _ Hinit Hst)
    as [Hinv _].
  pose proof (index_lines_take_all lines (psl_i st)) as Hall.
  destruct pt; simpl in *.
  - destruct Hinv. split; [lia|done].
  - lia.
Qed.

(** One iteration at an index line followed by its time code only. *)
Lemma otf_body_short lines ts i acc k idx tm :
  lines !! i = Some idx -> digit_only idx = true ->
  lines !! (i + 1) = Some tm -> lines !! (i + 2) = None ->
  otf_body lines ts (OtfState i acc k) = Done (OtfState (i + 3) (acc ++ [idx; tm]) k).
Proof.
  intros Hi Hd Htm Hnone. unfold otf_body, digit_only in *.
  rewrite (getitem_Done _ _ _ Hi). simpl. rewrite Hd.
  replace (i + 2 - 1) with (i + 1) by lia.
  rewrite (getitem_Done _ _ _ Htm). simpl.
  rewrite bool_decide_false by (apply lookup_ge_None_1 in Hnone; lia).
  simpl. state_eq.
Qed.

Lemma otf_body_invariant lines ts st st' :
  otf_invariant lines ts st ->
  otf_i st < length lines ->
  otf_body lines ts st = Done st' ->
  otf_invariant lines ts st'.
Proof.
  destruct st as [i acc k].
  intros (Hsub & Hts & Hlen & Hk) Hi.
  cbn [otf_i otf_new_lines otf_trans_index] in *.
  destruct (lookup_lt_is_Some_2 lines i Hi) as [l Hl].
  destruct (digit_only l) eqn:Hd.
  - destruct (lines !! (i + 1)) as [tm|] eqn:Htm;
      [|by rewrite (otf_body_last _ _ _ _ _ l)].
    assert (take (i + 2) lines = take i lines ++ [l; tm]) as Htake2.
    { replace (i + 2) with (S (S i)) by lia.
      rewrite (take_S_r _ (S i) tm) by (by rewrite <- Nat.add_1_r).
      rewrite (take_S_r _ i l) by done. by rewrite <- app_assoc. }
    destruct (lines !! (i + 2)) as [e|] eqn:He.
    + rewrite (otf_body_caption _ _ _ _ _ l tm e) by done.
      intros [= <-]. unfold otf_invariant.
      cbn [otf_i otf_new_lines otf_trans_index].
      assert (take (i + 3) lines = take i lines ++ [l; tm; e]) as Htake3.
      { replace (i + 3) with (S (i + 2)) by lia.
        rewrite (take_S_r _ (i + 2) e) by done.
        rewrite Htake2. by rewrite <- app_assoc. }
      rewrite Htake3.
      change (acc ++ l :: tm :: e :: option_list (ts !! k))
        with (acc ++ [l; tm; e] ++ option_list (ts !! k)).
      rewrite app_assoc.
      case_bool_decide as Hkk.
      * destruct (lookup_lt_is_Some_2 ts k Hkk) as [t Ht]. rewrite Ht. simpl.
        split; [apply sublist_inserts_r; by apply sublist_app|].
        split.
        { rewrite Nat.add_1_r, (take_S_r _ _ _ Ht).
          apply sublist_app; [|done]. by apply sublist_inserts_r. }
        rewrite !length_app in *. simpl. split; lia.
      * rewrite (lookup_ge_None_2 ts k) by lia. simpl. rewrite app_nil_r.
        split; [by apply sublist_app|].
        split; [by apply sublist_inserts_r|].
        rewrite !length_app in *. simpl. split; lia.
    + rewrite (otf_body_short _ _ _ _ _ l tm) by done.
      intros [= <-]. unfold otf_invariant.
      cbn [otf_i otf_new_lines otf_trans_index].
      assert (take (i + 3) lines = take i lines ++ [l; tm]) as Htake3.
      { rewrite <- Htake2. apply lookup_ge_None_1 in He.
        by rewrite !take_ge by lia. }
      rewrite Htake3.
      split; [by apply sublist_app|].
      split; [by apply sublist_inserts_r|].
      rewrite !length_app in *. simpl. split; lia.
  - rewrite (otf_body_plain _ _ _ _ _ l) by done.
    intros [= <-]. unfold otf_invariant.
      cbn [otf_i otf_new_lines otf_trans_index].
    rewrite Nat.add_1_r, (take_S_r _ _ _ Hl).
    split; [by apply sublist_app|].
    split; [by apply sublist_inserts_r|].
    rewrite !length_app in *. simpl. split; lia.
Qed.

Lemma merge_loop_invariant lines ts st :
  merge_loop lines ts = Done st ->
  otf_invariant lines ts st /\ length lines <= otf_i st.
Proof.
  unfold merge_loop. intros Hst.
  assert (otf_invariant lines ts (OtfState 0 [] 0)) as Hinit
    by (unfold otf_invariant; simpl; repeat split; try apply sublist_nil_l; lia).
  destruct (while_invariant (otf_invariant lines ts) _ _
              (fun s s' HP Hc Hb =>
                 otf_body_invariant lines ts s s' HP
                   (proj1 (bool_decide_eq_true _) Hc) Hb)
              _ _ _ Hinit Hst)
    as [Hinv Hc].
  split; [done|]. apply bool_decide_eq_false in Hc. lia.
Qed.

(** X6: when the merge loop ends, it has only inserted: the lines of the
    input are a subsequence of the new lines, the translations it used
    (the first [trans_index] ones) are too, and the new lines are exactly
    that many more than the input has. *)
Theorem merge_only_inserts lines ts st :
  merge_loop lines ts = Done st ->
  lines `sublist_of` otf_new_lines st /\
  take (otf_trans_index st) ts `sublist_of` otf_new_lines st /\
  length (otf_new_lines st) = length lines + otf_trans_index st /\
  otf_trans_index st <= length ts.
Proof.
  intros Hst.
  destruct (merge_loop_invariant lines ts st Hst) as [(H1 & H2 & H3 & H4) Hi].
  rewrite take_ge in H1, H3 by done. done.
Qed.

Lemma sublist_same_length {A} (l1 l2 : list A) :
  l1 `sublist_of` l2 -> length l2 <= length l1 -> l1 = l2.
Proof.
  induction 1 as [|x l1 l2 _ IH|x l1 l2 Hsub _]; simpl; intros Hlen.
  - done.
  - f_equal. apply IH. lia.
  - apply sublist_length in Hsub. lia.
Qed.

Lemma join_split s : join_nl (split_nl s) = s.
Proof.
  induction s as [|c s IH]; [done|]. simpl.
  destruct (c =? 10)%N eqn:Hc.
  - apply N.eqb_eq in Hc. subst c.
    destruct (split_nl s) as [|l ls] eqn:Hs; [by apply split_nl_nonempty in Hs|].
    by rewrite <- IH.
  - destruct (split_nl s) as [|l ls] eqn:Hs; [by apply split_nl_nonempty in Hs|].
    rewrite <- IH. simpl. by destruct ls.
Qed.

(** X7: with no translation at all, [onTranslationFinished] sets the
    editor's text to the text it had, for every text in which each
    digit-only line is followed by another line. *)
Theorem onTranslationFinished_nothing_to_insert content :
  (forall j d, split_nl content !! j = Some d -> digit_only d = true ->
     j + 1 < length (split_nl content)) ->
  onTranslationFinished content [] = Done content.
Proof.
  intros Hsafe. unfold onTranslationFinished, merge_lines.
  destruct (otf_while_cases (split_nl content) [] (length (split_nl content))
              (OtfState 0 [] 0)) as [[st Hst]|[_ (d & Hlast & Hd)]]; [simpl; lia| |].
  - fold (merge_loop (split_nl content) []) in Hst. rewrite Hst. simpl.
    destruct (merge_loop_invariant _ _ _ Hst) as [(H1 & _ & H3 & H4) Hi].
    rewrite take_ge in H1, H3 by done. simpl in H4.
    rewrite <- (sublist_same_length _ _ H1) by lia.
    by rewrite join_split.
  - rewrite last_lookup in Hlast. specialize (Hsafe _ _ Hlast Hd).
    apply lookup_lt_Some in Hlast. lia.
Qed.

End WalkerMore.

(** ** From the file to the merged text *)

Section Pipeline.
Context {U : UnicodeTables}.

Lemma lstrip_head s :
  lstrip s = [] \/ exists c t, lstrip s = c :: t /\ Py_UNICODE_ISSPACE c = false.
Proof.
  induction s as [|c s IH]; [by left|]. simpl.
  destruct (Py_UNICODE_ISSPACE c) eqn:Hc; [done|]. right. by exists c, s.
Qed.

Lemma lstrip_idemp s : lstrip (lstrip s) = lstrip s.
Proof.
  destruct (lstrip_head s) as [->|(c & t & -> & Hc)]; [done|].
  simpl. by rewrite Hc.
Qed.

Lemma lstrip_snoc u c :
  Py_UNICODE_ISSPACE c = false -> lstrip (u ++ [c]) = lstrip u ++ [c].
Proof.
  intros Hc. induction u as [|a u IH]; simpl; [by rewrite Hc|].
  by destruct (Py_UNICODE_ISSPACE a).
Qed.

Lemma rstrip_cons c t :
  Py_UNICODE_ISSPACE c = false -> rstrip (c :: t) = c :: rstrip t.
Proof.
  intros Hc. unfold rstrip. simpl.
  by rewrite lstrip_snoc, rev_app_distr.
Qed.

(** [s.strip().strip() == s.strip()] *)
Lemma strip_idemp s : strip (strip s) = strip s.
Proof.
  assert (forall x, rstrip (rstrip x) = rstrip x) as Hr.
  { intros x. unfold rstrip. by rewrite rev_involutive, lstrip_idemp. }
  unfold strip at 1.
  assert (lstrip (strip s) = strip s) as ->; [|unfold strip; apply Hr].
  unfold strip.
  destruct (lstrip_head s) as [->|(c & t & -> & Hc)]; [done|].
  rewrite rstrip_cons by done. simpl. by rewrite Hc.
Qed.

(** What the loop returns for each text: nothing for a blank one, an
    answer of the provider to that text for any other. *)
Lemma loop_actions_results net total i n texts rs acts :
  loop_actions net total i n texts rs acts ->
  Forall2 (fun t r =>
             (truthy (strip t) = false -> r = []) /\
             (truthy (strip t) = true -> exists m, provider net m t = Translated r))
    texts rs.
Proof.
  induction 1 as [|i n text texts p rs acts Hb _ _ IH
                 |i n j t text texts p rs acts Hb _ _ Hok _ _ IH].
  - constructor.
  - constructor; [|done]. split; [done|congruence].
  - constructor; [|done]. split; [congruence|]. intros _. by eexists.
Qed.

(** X8: the three steps fit together.  For a well-formed document, the
    texts extracted are the stripped first text lines of its captions;
    when the worker, given these texts and a reachable provider, ends
    with [finished], it has one result per caption - empty for a caption
    whose first text line is blank, an answer of the provider to the
    stripped line otherwise - and the merge puts each result directly
    after the first text line of its own caption, using all of them. *)
Theorem extract_translate_merge net preamble caps env rs :
  wf_layout preamble caps ->
  probe net = Status 200 ->
  last (signals (trace (run net (map (fun c => strip (c_text c)) caps) (init env)).2))
    = Some (finished rs) ->
  process_subtitle_lines (layout preamble caps) translate =
    Done (map (fun c => strip (c_text c)) caps) /\
  length rs = length caps /\
  Forall2 (fun c r =>
             (truthy (strip (c_text c)) = false -> r = []) /\
             (truthy (strip (c_text c)) = true ->
              exists m, provider net m (strip (c_text c)) = Translated r))
    caps rs /\
  merge_lines (layout preamble caps) rs =
    Done (layout preamble (zip_with with_translation caps rs)).
Proof.
  intros Hwf Hp Hlast.
  set (texts := map (fun c => strip (c_text c)) caps) in *.
  assert (exists acts, loop_actions net (length texts) 0 0 texts rs acts) as [acts Hla].
  { revert Hlast.
    destruct (run_loop net (length texts) 0 texts []
                (State (with_proxy env) true 0
                   (proxy_set ++ [HttpGet probe_url; Emit translation_started])))
      as [r s1] eqn:Hloop.
    rewrite (run_probe_ok _ _ _ _ _ Hp Hloop).
    destruct (run_loop_spec net (length texts) texts 0 [] _ r s1
                (eq_refl true : translator (State _ true _ _) = true) Hloop)
      as (_ & _ & acts & _ & _ & Hr).
    cbn [snd trace]. rewrite last_signal_before_clear.
    intros [= Hfinal]. destruct r as [rs0|e]; [|done].
    simpl in Hfinal. injection Hfinal as ->.
    destruct Hr as (rs' & Hrs & Hla). simpl in Hrs. subst rs'. by exists acts. }
  destruct (loop_actions_facts _ _ _ _ _ _ _ Hla) as (Hlen & _).
  unfold texts in Hlen. rewrite length_map in Hlen.
  split; [by apply process_translate_layout|]. split; [done|]. split.
  - apply loop_actions_results in Hla. unfold texts in Hla.
    apply Forall2_fmap_l in Hla.
    eapply Forall2_impl; [exact Hla|].
    intros c r. simpl. by rewrite strip_idemp.
  - unfold merge_lines. rewrite (merge_loop_layout _ _ _ Hwf). simpl.
    unfold layout. by rewrite (merged_from_zip0 caps rs Hlen).
Qed.

End Pipeline.

(** ** The paths of the saved files *)

Section SavingFacts.
Import Saving.

Lemma rsplit_dot_spec s :
  match rsplit_dot s with
  | Some (h, t) => s = h ++ 46%N :: t /\ 46%N ∉ t
  | None => 46%N ∉ s
  end.
Proof.
  induction s as [|c s IH]; simpl; [by intros ?%elem_of_nil|].
  destruct (rsplit_dot s) as [[h t]|].
  - destruct IH as [-> Ht]. by split.
  - destruct (c =? 46)%N eqn:Hc.
    + apply N.eqb_eq in Hc. by subst c.
    + apply N.eqb_neq in Hc. by intros [?|?]%elem_of_cons.
Qed.

Lemma rsplit_dot_ext stem ext :
  46%N ∉ ext -> rsplit_dot (stem ++ 46%N :: ext) = Some (stem, ext).
Proof.
  intros Hext.
  assert (rsplit_dot ext = None) as Hnone.
  { pose proof (rsplit_dot_spec ext) as H. destruct (rsplit_dot ext) as [[h t]|]; [|done].
    destruct H as [-> _]. exfalso. apply Hext. apply elem_of_app. right. by left. }
  induction stem as [|c stem IH]; simpl.
  - by rewrite Hnone.
  - by rewrite IH.
Qed.

Lemma suffix_heads :
  (exists t, py "_中文.srt" = 95%N :: t) /\
  (exists t, py "_仅中文.srt" = 95%N :: t) /\
  py "_中文.srt" <> py "_仅中文.srt".
Proof.
  split; [vm_compute; by eexists|]. split; [vm_compute; by eexists|].
  vm_compute. discriminate.
Qed.

Lemma suffixed_path_differs s suffix t :
  suffix = 95%N :: t -> rsplit_dot_0 s ++ suffix <> s.
Proof.
  intros -> Heq. unfold rsplit_dot_0 in Heq.
  pose proof (rsplit_dot_spec s) as Hs.
  destruct (rsplit_dot s) as [[h u]|].
  - destruct Hs as [Hs _]. rewrite <- Heq in Hs.
    apply app_inv_head in Hs. discriminate.
  - apply (f_equal length) in Heq. rewrite length_app in Heq. simpl in Heq. lia.
Qed.

(** X9: the two files written never are the file that was opened, nor
    each other: [saveFile] and [saveChineseOnly] replace what follows the
    last dot of the path by their own suffix, and append the suffix to a
    path without a dot. *)
Theorem save_paths file_path :
  saveFile_path file_path <> file_path /\
  saveChineseOnly_path file_path <> file_path /\
  saveFile_path file_path <> saveChineseOnly_path file_path /\
  (forall stem ext, file_path = stem ++ 46%N :: ext -> 46%N ∉ ext ->
     saveFile_path file_path = stem ++ py "_中文.srt" /\
     saveChineseOnly_path file_path = stem ++ py "_仅中文.srt") /\
  (46%N ∉ file_path ->
     saveFile_path file_path = file_path ++ py "_中文.srt" /\
     saveChineseOnly_path file_path = file_path ++ py "_仅中文.srt").
Proof.
  destruct suffix_heads as ((t1 & H1) & (t2 & H2) & Hne).
  unfold saveFile_path, saveChineseOnly_path.
  split; [by eapply suffixed_path_differs|].
  split; [by eapply suffixed_path_differs|].
  split; [by intros ?%app_inv_head|]. split.
  - intros stem ext -> Hext. unfold rsplit_dot_0.
    by rewrite (rsplit_dot_ext stem ext Hext).
  - intros Hdot. unfold rsplit_dot_0.
    pose proof (rsplit_dot_spec file_path) as Hs.
    destruct (rsplit_dot file_path) as [[h u]|]; [|done].
    destruct Hs as [-> _]. exfalso. apply Hdot. apply elem_of_app. right. by left.
Qed.

End SavingFacts.

(** ** The window during a translation *)

Section WindowFacts.
Context {U : UnicodeTables}.
Import Window.

Lemma process_subtitle_lines_done lines pt :
  exists r, process_subtitle_lines lines pt = Done r.
Proof.
  unfold process_subtitle_lines.
  destruct (psl_while_total lines pt (length lines) (PslState 0 [] 1)) as [st ->];
    [simpl; lia|].
  by eexists.
Qed.

(** The click that starts a thread. *)
Lemma addTranslation_starts e fname :
  current_file e = Some fname -> truthy fname = true -> is_translating e = false ->
  exists texts,
    process_subtitle_lines (split_nl (text_edit e)) translate = Done texts /\
    addTranslation e =
    Done (with_thread texts (with_buttons false (with_translating true e)), Some texts).
Proof.
  intros Hf Hn Ht. unfold addTranslation. rewrite Hf, Hn, Ht. simpl.
  destruct (process_subtitle_lines_done (split_nl (text_edit e)) translate) as [texts Hx].
  exists texts. split; [done|]. by rewrite Hx.
Qed.

(** Progress values reach a window whose dialog exists without a change. *)
Lemma deliver_progress values sgs e :
  progress_dialog e = true ->
  deliver (map progress values ++ sgs) e = deliver sgs e.
Proof.
  intros Hd. induction values as [|v values IH]; [done|].
  simpl. unfold updateProgress. by rewrite Hd.
Qed.

(** X10: a click on the translate button with a well-formed document in
    the text edit, a reachable provider and a run that ends with
    [finished]: no slot raises, the text edit then holds the document
    with each result after the first text line of its caption, the window
    is no longer translating and its four buttons are enabled again. *)
Theorem session_finished net env e fname preamble caps rs :
  current_file e = Some fname -> truthy fname = true -> is_translating e = false ->
  split_nl (text_edit e) = layout preamble caps ->
  wf_layout preamble caps ->
  probe net = Status 200 ->
  last (signals (trace (run net (map (fun c => strip (c_text c)) caps) (TranslatorThread.init env)).2))
    = Some (finished rs) ->
  exists e',
    session net env e = Done (Alive e') /\
    text_edit e' = join_nl (layout preamble (zip_with with_translation caps rs)) /\
    is_translating e' = false /\
    translate_btn e' = true /\ select_file_btn e' = true /\
    save_btn e' = true /\ save_chinese_btn e' = true /\
    current_file e' = current_file e /\ messages e' = messages e.
Proof.
  intros Hf Hn Ht Htext Hwf Hp Hlast.
  destruct (addTranslation_starts e fname Hf Hn Ht) as (texts & Hx & Hadd).
  rewrite Htext, (process_translate_layout _ _ Hwf) in Hx.
  injection Hx as <-.
  unfold session. rewrite Hadd. simpl.
  set (texts := map (fun c => strip (c_text c)) caps) in *.
  destruct (run_ok_trace net texts env Hp)
    as (acts & final & Htrace & _ & _ & _ & Hs & _).
  rewrite Htrace in Hlast |- *.
  assert (final = finished rs) as ->.
  { rewrite !app_assoc, last_signal_before_clear in Hlast. congruence. }
  assert (length rs = length caps) as Hlen.
  { destruct (run_loop net (length texts) 0 texts []
                (State (with_proxy env) true 0
                   (proxy_set ++ [HttpGet probe_url; Emit translation_started])))
      as [r s1] eqn:Hloop.
    pose proof (run_probe_ok _ _ _ _ _ Hp Hloop) as Hrun.
    rewrite Hrun in Htrace. cbn [snd trace] in Htrace.
    destruct (run_loop_spec net (length texts) texts 0 [] _ r s1
                (eq_refl true : translator (State _ true _ _) = true) Hloop)
      as (_ & _ & acts' & Htrace' & _ & Hr).
    cbn [trace] in Htrace'. rewrite Htrace' in Htrace.
    assert (last (signals ((proxy_set ++ [HttpGet probe_url; Emit translation_started])
                             ++ acts' ++ Emit (final_signal r) :: proxy_cleared))
            = Some (final_signal r)) as Hl1
      by (rewrite app_assoc; apply last_signal_before_clear).
    rewrite <- app_assoc in Htrace. rewrite Htrace in Hl1.
    rewrite !app_assoc, last_signal_before_clear in Hl1.
    destruct r as [rs0|ex]; [|done]. simpl in Hl1. injection Hl1 as ->.
    destruct Hr as (rs' & Hrs & Hla). simpl in Hrs. subst rs'.
    destruct (loop_actions_facts _ _ _ _ _ _ _ Hla) as (Hlen & _).
    unfold texts in Hlen. by rewrite length_map in Hlen. }
  rewrite !signals_app, Hs.
  change (signals proxy_set) with (@nil signal).
  change (signals [HttpGet probe_url; Emit translation_started])
    with [translation_started].
  change (signals (Emit (finished rs) :: proxy_cleared)) with [finished rs].
  simpl. rewrite deliver_progress by done.
  simpl. unfold Window.onTranslationFinished. simpl.
  unfold SubtitleEditor.onTranslationFinished, merge_lines.
  rewrite Htext, (merge_loop_layout _ _ _ Hwf). simpl.
  unfold layout. rewrite (merged_from_zip0 caps rs Hlen).
  eexists. split; [done|]. by repeat split.
Qed.

(** X11: a click on the translate button when the probe is answered with
    a status other than 200: no slot is ever called, so the window stays
    as the click left it - translating, with its four buttons disabled,
    no message shown and no thread running to change that. *)
Theorem session_rejected_probe_locks_window net env e fname code :
  current_file e = Some fname -> truthy fname = true -> is_translating e = false ->
  probe net = Status code -> code <> 200%Z ->
  exists e',
    session net env e = Done (Alive e') /\
    is_translating e' = true /\
    translate_btn e' = false /\ select_file_btn e' = false /\
    save_btn e' = false /\ save_chinese_btn e' = false /\
    text_edit e' = text_edit e /\ messages e' = messages e.
Proof.
  intros Hf Hn Ht Hp Hc.
  destruct (addTranslation_starts e fname Hf Hn Ht) as (texts & _ & Hadd).
  unfold session. rewrite Hadd. simpl.
  rewrite (run_probe_rejected _ _ _ _ Hp Hc). simpl.
  eexists. split; [done|]. by repeat split.
Qed.

(** X12: a click on the translate button when the probe request raises;
    the run then emits [error] and nothing else.  In a window that has
    shown the progress dialog before, the error is reported and the window
    is restored.  In a window that has not (the dialog is only created at
    [translation_started], which this run never emits),
    [onTranslationError] raises at [self.progress_dialog.hide()], its first
    statement, before anything is restored and before the message box: the
    exception leaves the slot and the application ends. *)
Theorem session_probe_exception net env e fname ex :
  current_file e = Some fname -> truthy fname = true -> is_translating e = false ->
  probe net = HttpFails ex ->
  (progress_dialog e = true ->
   exists e',
     session net env e = Done (Alive e') /\
     text_edit e' = text_edit e /\
     is_translating e' = false /\
     translate_btn e' = true /\ select_file_btn e' = true /\
     save_btn e' = true /\ save_chinese_btn e' = true /\
     messages e' = messages e ++ [py "代理连接测试失败: " ++ str_of_exn ex]) /\
  (progress_dialog e = false ->
   session net env e = Done (Aborted (none_has_no "hide"))).
Proof.
  intros Hf Hn Ht Hp.
  destruct (addTranslation_starts e fname Hf Hn Ht) as (texts & _ & Hadd).
  unfold session. rewrite Hadd. simpl.
  rewrite (run_probe_fails _ _ _ _ Hp). simpl.
  unfold onTranslationError. simpl.
  split; intros ->; simpl; [|done].
  eexists. split; [done|]. by repeat split.
Qed.

End WindowFacts.

(** *** Worked instances of the further properties, on the basic tables *)

Section MoreInstances.
#[local] Existing Instance basic_tables.

Lemma run_probe_exception_one_error_witness :
  probe net_down = HttpFails (Exception (py "connection refused")) /\
  signals (trace (run net_down (L ["Hello"]) (init ∅)).2) =
    [error (py "代理连接测试失败: connection refused")] /\
  translate_calls (trace (run net_down (L ["Hello"]) (init ∅)).2) = [].
Proof.
  split; [reflexivity|].
  destruct (run_probe_exception_one_error net_down (L ["Hello"]) ∅
              (Exception (py "connection refused")) eq_refl) as [H1 H2].
  split; [rewrite H1; vm_compute; reflexivity|exact H2].
Defined.

Lemma merge_one_caption :
  merge_loop (split_nl content_one_caption) (L ["你好"]) =
  Done (OtfState 5
          (L ["1"; "00:00:01,000 --> 00:00:02,000"; "Hello"; "你好"; ""; ""]) 1).
Proof. vm_compute. reflexivity. Qed.

Lemma merge_only_inserts_witness :
  merge_loop (split_nl content_one_caption) (L ["你好"]) =
    Done (OtfState 5
            (L ["1"; "00:00:01,000 --> 00:00:02,000"; "Hello"; "你好"; ""; ""]) 1) /\
  split_nl content_one_caption `sublist_of`
    L ["1"; "00:00:01,000 --> 00:00:02,000"; "Hello"; "你好"; ""; ""] /\
  length (L ["1"; "00:00:01,000 --> 00:00:02,000"; "Hello"; "你好"; ""; ""]) =
    length (split_nl content_one_caption) + 1.
Proof.
  split; [exact merge_one_caption|].
  destruct (merge_only_inserts _ _ _ merge_one_caption) as (H1 & _ & H3 & _).
  split; [exact H1|exact H3].
Defined.

Lemma content_one_caption_safe j d :
  split_nl content_one_caption !! j = Some d -> digit_only d = true ->
  j + 1 < length (split_nl content_one_caption).
Proof.
  change (split_nl content_one_caption)
    with (L ["1"; "00:00:01,000 --> 00:00:02,000"; "Hello"; ""; ""]).
  intros Hj Hd.
  destruct j as [|[|[|[|[|j]]]]]; simpl in Hj; try discriminate;
    injection Hj as <-; try (simpl; lia); vm_compute in Hd; discriminate.
Qed.

Lemma onTranslationFinished_nothing_to_insert_witness :
  (forall j d, split_nl content_one_caption !! j = Some d -> digit_only d = true ->
     j + 1 < length (split_nl content_one_caption)) /\
  SubtitleEditor.onTranslationFinished content_one_caption [] = Done content_one_caption.
Proof.
  split; [exact content_one_caption_safe|].
  exact (onTranslationFinished_nothing_to_insert content_one_caption
           content_one_caption_safe).
Defined.

Lemma wf_one_caption : wf_layout [] caps_one_caption.
Proof. split; repeat constructor. Qed.

Lemma run_echo_finishes :
  last (signals (trace (run net_echo (map (fun c => strip (c_text c)) caps_one_caption)
                          (init ∅)).2))
  = Some (finished (L ["Hello"])).
Proof. vm_compute. reflexivity. Qed.

Lemma extract_translate_merge_witness :
  wf_layout [] caps_one_caption /\
  probe net_echo = Status 200 /\
  last (signals (trace (run net_echo (map (fun c => strip (c_text c)) caps_one_caption)
                          (init ∅)).2))
    = Some (finished (L ["Hello"])) /\
  merge_lines (layout [] caps_one_caption) (L ["Hello"]) =
    Done (layout [] (zip_with with_translation caps_one_caption (L ["Hello"]))).
Proof.
  split; [exact wf_one_caption|]. split; [reflexivity|].
  split; [exact run_echo_finishes|].
  destruct (extract_translate_merge net_echo [] caps_one_caption ∅ (L ["Hello"])
              wf_one_caption eq_refl run_echo_finishes) as (_ & _ & _ & H4).
  exact H4.
Defined.

Lemma window_one_caption_lines :
  split_nl (Window.text_edit window_one_caption) = layout [] caps_one_caption.
Proof. vm_compute. reflexivity. Qed.

Lemma session_finished_witness :
  Window.current_file window_one_caption = Some (py "film.srt") /\
  truthy (py "film.srt") = true /\
  Window.is_translating window_one_caption = false /\
  exists e',
    Window.session net_echo ∅ window_one_caption = Done (Window.Alive e') /\
    Window.text_edit e' =
      join_nl (layout [] (zip_with with_translation caps_one_caption (L ["Hello"]))) /\
    Window.is_translating e' = false /\
    Window.translate_btn e' = true /\ Window.select_file_btn e' = true /\
    Window.save_btn e' = true /\ Window.save_chinese_btn e' = true /\
    Window.current_file e' = Window.current_file window_one_caption /\
    Window.messages e' = Window.messages window_one_caption.
Proof.
  split; [reflexivity|]. split; [reflexivity|]. split; [reflexivity|].
  exact (session_finished net_echo ∅ window_one_caption (py "film.srt") []
           caps_one_caption (L ["Hello"]) eq_refl eq_refl eq_refl
           window_one_caption_lines wf_one_caption eq_refl run_echo_finishes).
Defined.

Lemma session_rejected_probe_locks_window_witness :
  probe net_busy = Status 503 /\ 503%Z <> 200%Z /\
  exists e',
    Window.session net_busy ∅ window_one_caption = Done (Window.Alive e') /\
    Window.is_translating e' = true /\
    Window.translate_btn e' = false /\ Window.select_file_btn e' = false /\
    Window.save_btn e' = false /\ Window.save_chinese_btn e' = false /\
    Window.text_edit e' = Window.text_edit window_one_caption /\
    Window.messages e' = Window.messages window_one_caption.
Proof.
  assert (503%Z <> 200%Z) as Hne by discriminate.
  split; [reflexivity|]. split; [exact Hne|].
  exact (session_rejected_probe_locks_window net_busy ∅ window_one_caption
           (py "film.srt") 503 eq_refl eq_refl eq_refl eq_refl Hne).
Defined.

Lemma session_probe_exception_witness :
  probe net_down = HttpFails (Exception (py "connection refused")) /\
  Window.progress_dialog window_one_caption = false /\
  Window.session net_down ∅ window_one_caption =
    Done (Window.Aborted (Window.none_has_no "hide")) /\
  Window.progress_dialog (Window.with_dialog window_one_caption) = true /\
  exists e',
    Window.session net_down ∅ (Window.with_dialog window_one_caption) =
      Done (Window.Alive e') /\
    Window.is_translating e' = false /\
    Window.translate_btn e' = true /\
    Window.messages e' = [py "代理连接测试失败: connection refused"].
Proof.
  split; [reflexivity|]. split; [reflexivity|].
  split.
  - exact (proj2 (session_probe_exception net_down ∅ window_one_caption
                    (py "film.srt") (Exception (py "connection refused"))
                    eq_refl eq_refl eq_refl eq_refl) eq_refl).
  - split; [reflexivity|].
    destruct (proj1 (session_probe_exception net_down ∅
                       (Window.with_dialog window_one_caption)
                       (py "film.srt") (Exception (py "connection refused"))
                       eq_refl eq_refl eq_refl eq_refl) eq_refl)
      as (e' & H1 & _ & H3 & H4 & _ & _ & _ & H8).
    exists e'. split; [exact H1|]. split; [exact H3|]. split; [exact H4|].
    rewrite H8. vm_compute. reflexivity.
Defined.

(** The scenario of the specification: the text parses into its two
    blocks, serializes back to itself, and the merge of "你好" and "世界"
    puts each under its caption. *)
Example scenario :
  Spec.parse content_scenario = doc_scenario /\
  Spec.serialize doc_scenario = content_scenario /\
  SubtitleEditor.onTranslationFinished content_scenario (L ["你好"; "世界"]) =
    Done (join_nl (L ["1"; "00:00:01,000 --> 00:00:02,000"; "Hello"; "你好"; "";
                      "2"; "00:00:03,000 --> 00:00:04,000"; "World"; "世界"; ""; ""])).
Proof. vm_compute. repeat split; reflexivity. Qed.

End MoreInstances.
